(** * Authorization decisions over a role-based access control authority

    A shallow embedding of the two Go packages of the repository:

    - [Kubernetes] embeds [permissions.go] (package [kubernetes]): the
      resolver [GetUserPermissions], the evaluator [HasPermission] and the
      gate [FilterResources];
    - [Business] embeds the permission cache and the live checker
      [CheckUserPermissions] (package [business]).

    Go maps are finite maps ([gmap]) with string keys, slices are lists, the
    pair [(value, error)] returned by a fallible function is a [result], and
    the collaborators reached over the network are state transformers on an
    abstract authority state. *)

From stdpp Require Import base strings gmap list.
From Stdlib Require Import ZArith Lia.

Open Scope string_scope.
Open Scope list_scope.

(** ** Errors and results *)

(** A Go [error] value: either one handed back by a collaborator, or one
    built by [fmt.Errorf(prefix + "%w", cause)]. *)
Inductive error : Type :=
| External (msg : string)
| Errorf (prefix : string) (cause : error).

(** The text of [err.Error()]. *)
Fixpoint Error (e : error) : string :=
  match e with
  | External msg => msg
  | Errorf prefix cause => String.append prefix (Error cause)
  end.

(** What the spec calls an AuthorityError: a collaborator's failure wrapped
    by this code. *)
Definition AuthorityError (e : error) : Prop :=
  ∃ prefix cause, e = Errorf prefix cause.

(** What a call produces: [Ok v] stands for [(v, nil)], [Err e] for
    [(zero, e)]; [Panic] is a run-time panic (nil pointer dereference). *)
Inductive result (A : Type) : Type :=
| Ok (a : A)
| Err (e : error)
| Panic.
Arguments Ok {A} a.
Arguments Err {A} e.
Arguments Panic {A}.

(** ** Stateful computations

    A function that talks to a collaborator or to the package-level cache is
    a transformer of a state [S]; [Err] and [Panic] leave the function at
    once, keeping the state reached so far. *)
Definition M (S A : Type) : Type := S → result A * S.

Definition ret {S A : Type} (a : A) : M S A := fun s => (Ok a, s).

Definition fail {S A : Type} (e : error) : M S A := fun s => (Err e, s).

Definition panic {S A : Type} : M S A := fun s => (Panic, s).

Definition bind {S A B : Type} (m : M S A) (k : A → M S B) : M S B :=
  fun s =>
    match m s with
    | (Ok a, s') => k a s'
    | (Err e, s') => (Err e, s')
    | (Panic, s') => (Panic, s')
    end.

Definition get {S : Type} : M S S := fun s => (Ok s, s).

Notation "x <- m ;; k" := (bind m (fun x => k))
  (at level 100, m at next level, right associativity).
Notation "m ;;; k" := (bind m (fun _ => k))
  (at level 100, right associativity).

(** [for _, b := range l { a = body(a, b) }], where the body may return
    from the enclosing function with an error. *)
Fixpoint for_range {S A B : Type} (body : A → B → M S A) (l : list B) (a : A)
    : M S A :=
  match l with
  | [] => ret a
  | b :: l' => a' <- body a b ;; for_range body l' a'
  end.

(** ** The RBAC objects of [k8s.io/api/rbac/v1] that the code reads *)
Module rbacv1.

Record Subject : Type := { Kind : string; Name : string }.

Record RoleRef : Type := { RoleRefName : string }.

Record ClusterRoleBinding : Type := {
  Subjects : list Subject;
  RoleRef_ : RoleRef
}.

Record ClusterRoleBindingList : Type := { Items : list ClusterRoleBinding }.

Record PolicyRule : Type := {
  Verbs : list string;
  APIGroups : list string;
  Resources : list string
}.

Record ClusterRole : Type := { Rules : list PolicyRule }.

End rbacv1.

(** ** Package [kubernetes]: [permissions.go] *)
Module Kubernetes.

(** [UserPermissions]: both fields are [map[string][]string]. *)
Record UserPermissions : Type := {
  Resources : gmap string (list string);
  APIGroups : gmap string (list string)
}.

(** The inner loop of both verb scans: [v == "*" || v == verb]. *)
Definition matches (wanted v : string) : bool :=
  String.eqb v "*" || String.eqb v wanted.

(** The loop over [p.Resources[resource]] (lines 82-96).  The assignment
    [apiGroup = ""] of line 86 changes the variable for the iterations that
    follow, so [apiGroup] is threaded through the recursion.  A matching verb
    whose group check fails does not leave the loop. *)
Fixpoint specific_loop (p : UserPermissions) (resource verb : string)
    (apiGroup : string) (verbs : list string) : bool :=
  match verbs with
  | [] => false
  | v :: verbs' =>
      if matches verb v then
        let apiGroup := if String.eqb apiGroup "core" then "" else apiGroup in
        match APIGroups p !! apiGroup with
        | Some allowedResources =>
            if existsb (matches resource) allowedResources then true
            else specific_loop p resource verb apiGroup verbs'
        | None => specific_loop p resource verb apiGroup verbs'
        end
      else specific_loop p resource verb apiGroup verbs'
  end.

(** [HasPermission] (lines 70-100). *)
Definition HasPermission (p : UserPermissions)
    (apiGroup resource verb : string) : bool :=
  let wildcard :=
    match Resources p !! "*" with
    | Some verbs => existsb (matches verb) verbs
    | None => false
    end in
  if wildcard then true
  else
    match Resources p !! resource with
    | Some verbs => specific_loop p resource verb apiGroup verbs
    | None => false
    end.

(** [FilterResources] (lines 103-116): the loop appends every element of
    [resources] to a fresh slice. *)
Definition FilterResources {A : Type} (p : UserPermissions)
    (apiGroup resourceType : string) (resources : list A) : list A :=
  if negb (HasPermission p apiGroup resourceType "list") then []
  else fold_left (fun filtered resource => filtered ++ [resource]) resources [].

(** *** The resolver *)

(** The calls made on the authority, with what each one returned. *)
Inductive Call : Type :=
| CallList (out : error + rbacv1.ClusterRoleBindingList)
| CallGet (name : string) (out : error + rbacv1.ClusterRole).

(** Lines 45-50: one API group of a rule.  The wildcard group is filed under
    the key "core"; the rule's resources are appended to what the key holds
    (nothing when the key is absent). *)
Definition add_api_group (rule : rbacv1.PolicyRule)
    (permissions : UserPermissions) (apiGroup : string) : UserPermissions :=
  let apiGroup := if String.eqb apiGroup "*" then "core" else apiGroup in
  {| Resources := Resources permissions;
     APIGroups :=
       <[ apiGroup := default [] (APIGroups permissions !! apiGroup)
                      ++ rbacv1.Resources rule ]> (APIGroups permissions) |}.

(** Lines 53-60: one resource of a rule. *)
Definition set_resource (rule : rbacv1.PolicyRule)
    (permissions : UserPermissions) (resource : string) : UserPermissions :=
  if String.eqb resource "*" then
    {| Resources := <[ "*" := rbacv1.Verbs rule ]> (Resources permissions);
       APIGroups := APIGroups permissions |}
  else
    {| Resources := <[ resource := rbacv1.Verbs rule ]> (Resources permissions);
       APIGroups := APIGroups permissions |}.

(** Lines 43-61: the body of the loop over [cr.Rules]. *)
Definition process_rule (permissions : UserPermissions)
    (rule : rbacv1.PolicyRule) : UserPermissions :=
  let permissions :=
    fold_left (add_api_group rule) (rbacv1.APIGroups rule) permissions in
  fold_left (set_resource rule) (rbacv1.Resources rule) permissions.

Section Resolver.

(** The state of the authority behind [kubernetes.Interface]. *)
Context {W : Type}.

(** The two calls of [k8s.RbacV1()] that the code makes. *)
Record Interface : Type := {
  ListClusterRoleBindings : W → (error + rbacv1.ClusterRoleBindingList) * W;
  GetClusterRole : string → W → (error + rbacv1.ClusterRole) * W
}.

Record State : Type := {
  authority : W;
  calls : list Call
}.

Definition list_bindings (k8s : Interface)
    : M State (error + rbacv1.ClusterRoleBindingList) :=
  fun st =>
    let '(out, w) := ListClusterRoleBindings k8s (authority st) in
    (Ok out, {| authority := w; calls := calls st ++ [CallList out] |}).

Definition get_role (k8s : Interface) (name : string)
    : M State (error + rbacv1.ClusterRole) :=
  fun st =>
    let '(out, w) := GetClusterRole k8s name (authority st) in
    (Ok out, {| authority := w; calls := calls st ++ [CallGet name out] |}).

(** Lines 34-63: the body of the loop over [crb.Subjects]. *)
Definition process_subject (k8s : Interface) (username : string)
    (crb : rbacv1.ClusterRoleBinding)
    (permissions : UserPermissions) (subject : rbacv1.Subject)
    : M State UserPermissions :=
  if String.eqb (rbacv1.Kind subject) "User"
     && String.eqb (rbacv1.Name subject) username then
    let name := rbacv1.RoleRefName (rbacv1.RoleRef_ crb) in
    out <- get_role k8s name ;;
    match out with
    | inl err =>
        fail (Errorf ("failed to get ClusterRole " +:+ name +:+ ": ") err)
    | inr cr => ret (fold_left process_rule (rbacv1.Rules cr) permissions)
    end
  else ret permissions.

(** [GetUserPermissions] (lines 20-67).  The snapshot is built in place in
    the Go code and is reachable only through the returned pointer, so an
    error return drops whatever had been folded into it. *)
Definition GetUserPermissions (k8s : Interface) (username : string)
    : M State UserPermissions :=
  let permissions := {| Resources := ∅; APIGroups := ∅ |} in
  out <- list_bindings k8s ;;
  match out with
  | inl err => fail (Errorf "failed to list ClusterRoleBindings: " err)
  | inr crbs =>
      for_range
        (fun permissions crb =>
           for_range (process_subject k8s username crb)
                     (rbacv1.Subjects crb) permissions)
        (rbacv1.Items crbs) permissions
  end.

End Resolver.

Arguments Interface W : clear implicits.
Arguments State W : clear implicits.

End Kubernetes.

(** ** Package [business]: the permission cache and the live checker *)
Module Business.

(** *** Time

    A [time.Time] is an instant counted in nanoseconds; a [time.Duration] is
    a signed 64-bit count of nanoseconds, and [Time.Sub] saturates at the
    ends of that range. *)
Definition Time : Type := Z.
Definition Duration : Type := Z.

Definition minDuration : Duration := (- 2 ^ 63)%Z.
Definition maxDuration : Duration := (2 ^ 63 - 1)%Z.
Definition Minute : Duration := 60000000000%Z.

Definition Sub (t u : Time) : Duration :=
  let d := (t - u)%Z in
  if (d <? minDuration)%Z then minDuration
  else if (maxDuration <? d)%Z then maxDuration
  else d.

(** [ResourcePermissions]: the field of the same name is the map from
    resource type to verbs. *)
Record ResourcePermissions : Type := {
  ResourcePermissions_ : gmap string (list string);
  LastChecked : Time
}.

(** Modelled from the spec: the element type of the slice returned by the
    client's self-review call, of which the code reads [Status.Allowed]. *)
Record SubjectAccessReviewStatus : Type := { Allowed : bool }.

Record SelfSubjectAccessReview : Type := {
  Status : SubjectAccessReviewStatus
}.

(** The calls made on the authority, with what each one returned. *)
Inductive Call : Type :=
| CallSelfReview (namespace api resourceType : string) (verbs : list string)
                 (out : error + list SelfSubjectAccessReview).

(** Lines 52-60: the exact-match scan of a cached entry. *)
Definition cached_check (permissions : ResourcePermissions)
    (resourceType verb : string) : bool :=
  match ResourcePermissions_ permissions !! resourceType with
  | Some verbs => existsb (fun v => String.eqb v verb) verbs
  | None => false
  end.

Section Checker.

(** The state of the authority behind [kubernetes.ClientInterface]. *)
Context {W : Type}.

(** The one call of the client that the code makes (the context argument
    is left out). *)
Record ClientInterface : Type := {
  GetSelfSubjectAccessReview :
    string → string → string → list string → W →
    (error + list SelfSubjectAccessReview) * W
}.

(** The package state: the cache (a map to pointers, [None] being the nil
    pointer), the clock, the authority, and what was called and logged.  The
    reader/writer lock is left out: calls are taken one at a time. *)
Record State : Type := {
  userPermissionsCache : gmap string (option ResourcePermissions);
  now : Time;
  authority : W;
  calls : list Call;
  logged : list string
}.

Definition Since (st : State) (t : Time) : Duration := Sub (now st) t.

Definition self_review (userClient : ClientInterface)
    (namespace api resourceType : string) (verbs : list string)
    : M State (error + list SelfSubjectAccessReview) :=
  fun st =>
    let '(out, w) :=
      GetSelfSubjectAccessReview userClient namespace api resourceType verbs
                                 (authority st) in
    (Ok out,
     {| userPermissionsCache := userPermissionsCache st;
        now := now st;
        authority := w;
        calls := calls st ++ [CallSelfReview namespace api resourceType verbs out];
        logged := logged st |}).

Definition log_Errorf (line : string) : M State unit :=
  fun st =>
    (Ok tt,
     {| userPermissionsCache := userPermissionsCache st;
        now := now st;
        authority := authority st;
        calls := calls st;
        logged := logged st ++ [line] |}).

Definition set_cache (cache : gmap string (option ResourcePermissions))
    : M State unit :=
  fun st =>
    (Ok tt,
     {| userPermissionsCache := cache;
        now := now st;
        authority := authority st;
        calls := calls st;
        logged := logged st |}).

(** Lines 37-48: the live check. *)
Definition live_check (userClient : ClientInterface)
    (username resourceType verb : string) : M State bool :=
  out <- self_review userClient "" "" resourceType [verb] ;;
  match out with
  | inl err =>
      log_Errorf ("Error checking permissions for user " +:+ username
                  +:+ " on resource " +:+ resourceType +:+ ": " +:+ Error err) ;;;
      fail (Errorf "error checking permissions: " err)
  | inr review =>
      match review with
      | [] => ret false
      | first :: _ => ret (Allowed (Status first))
      end
  end.

(** [CheckUserPermissions] (lines 30-61).  [!exists || ...] reads
    [permissions.LastChecked] only for a key that is present; a present key
    holding the nil pointer panics there. *)
Definition CheckUserPermissions (userClient : ClientInterface)
    (username resourceType verb : string) : M State bool :=
  st <- get ;;
  match userPermissionsCache st !! username with
  | None => live_check userClient username resourceType verb
  | Some None => panic
  | Some (Some permissions) =>
      if (5 * Minute <? Since st (LastChecked permissions))%Z then
        live_check userClient username resourceType verb
      else ret (cached_check permissions resourceType verb)
  end.

(** [CacheUserPermissions] (lines 64-68). *)
Definition CacheUserPermissions (username : string)
    (permissions : option ResourcePermissions) : M State unit :=
  st <- get ;;
  set_cache (<[ username := permissions ]> (userPermissionsCache st)).

(** [GetUserPermissions] (lines 71-75): indexing a map at an absent key
    gives the zero value, the nil pointer. *)
Definition GetUserPermissions (username : string)
    : M State (option ResourcePermissions) :=
  st <- get ;;
  ret (default None (userPermissionsCache st !! username)).

(** [ClearUserPermissions] (lines 78-82). *)
Definition ClearUserPermissions (username : string) : M State unit :=
  st <- get ;;
  set_cache (delete username (userPermissionsCache st)).

End Checker.

Arguments ClientInterface W : clear implicits.
Arguments State W : clear implicits.

End Business.

(** * Vocabulary of the properties *)

Module KubernetesSpec.
Import Kubernetes.

(** The words of the spec: "[l] contains [x] or the wildcard". *)
Definition contains_or_wildcard (x : string) (l : list string) : Prop :=
  x ∈ l ∨ "*" ∈ l.

(** The group under which [HasPermission] looks a request up. *)
Definition normalize (apiGroup : string) : string :=
  if String.eqb apiGroup "core" then "" else apiGroup.

(** A call that came back without an error. *)
Definition succeeded (c : Call) : Prop :=
  match c with
  | CallList (inr _) | CallGet _ (inr _) => True
  | _ => False
  end.

(** The rules of the roles that were fetched, in the order of the fetches:
    the rules that the resolver processed. *)
Definition fetched_rules (cs : list Call) : list rbacv1.PolicyRule :=
  flat_map (fun c => match c with
                     | CallGet _ (inr cr) => rbacv1.Rules cr
                     | _ => []
                     end) cs.

(** How a part of the resolver that starts from the snapshot [p] and makes
    the calls [cs] may end: with every call answered and the fetched rules
    folded into [p], or at the first failed fetch, which is then the last
    call made. *)
Inductive ends_with (p : UserPermissions) (cs : list Call)
    : result UserPermissions → Prop :=
| ends_ok :
    Forall succeeded cs →
    ends_with p cs (Ok (fold_left process_rule (fetched_rules cs) p))
| ends_err cs0 name cause :
    cs = cs0 ++ [CallGet name (inl cause)] →
    Forall succeeded cs0 →
    ends_with p cs
      (Err (Errorf ("failed to get ClusterRole " +:+ name +:+ ": ") cause)).

(** A loop body that extends the trace and ends as [ends_with] says. *)
Definition traced {W B : Type}
    (body : UserPermissions → B → M (State W) UserPermissions) : Prop :=
  ∀ p b st, ∃ cs,
    calls (body p b st).2 = calls st ++ cs ∧ ends_with p cs (body p b st).1.

(** The subject test of line 35. *)
Definition names_user (username : string) (subject : rbacv1.Subject) : Prop :=
  rbacv1.Kind subject = "User" ∧ rbacv1.Name subject = username.

(** The empty snapshot the resolver starts from. *)
Definition no_permissions : UserPermissions :=
  {| Resources := ∅; APIGroups := ∅ |}.

(** The spec's two snapshots for the group check. *)
Definition pods_in_core : UserPermissions :=
  {| Resources := {[ "pods" := ["get"] ]}; APIGroups := {[ "" := ["pods"] ]} |}.

Definition services_in_core : UserPermissions :=
  {| Resources := {[ "pods" := ["get"] ]};
     APIGroups := {[ "" := ["services"] ]} |}.

(** *** A small authority to run the resolver on

    Its answers do not change over time: the bindings are a fixed list and a
    role is looked up by name. *)
Definition fixed_authority (bindings : list rbacv1.ClusterRoleBinding)
    (roles : string → error + rbacv1.ClusterRole) : Interface unit :=
  {| ListClusterRoleBindings := fun w => (inr {| rbacv1.Items := bindings |}, w);
     GetClusterRole := fun name w => (roles name, w) |}.

Definition start : State unit := {| authority := tt; calls := [] |}.

Definition user_binding (user role : string) : rbacv1.ClusterRoleBinding :=
  {| rbacv1.Subjects := [ {| rbacv1.Kind := "User"; rbacv1.Name := user |} ];
     rbacv1.RoleRef_ := {| rbacv1.RoleRefName := role |} |}.

Definition one_rule (groups resources verbs : list string)
    : rbacv1.ClusterRole :=
  {| rbacv1.Rules := [ {| rbacv1.Verbs := verbs;
                          rbacv1.APIGroups := groups;
                          rbacv1.Resources := resources |} ] |}.

(** Role "reader" may get pods, role "lister" may list pods, role "wild"
    may get pods in every API group; no other role exists. *)
Definition some_roles (name : string) : error + rbacv1.ClusterRole :=
  if String.eqb name "reader" then inr (one_rule [""] ["pods"] ["get"])
  else if String.eqb name "lister" then inr (one_rule [""] ["pods"] ["list"])
  else if String.eqb name "wild" then inr (one_rule ["*"] ["pods"] ["get"])
  else inl (External ("clusterroles " +:+ name +:+ " not found")).

(** alice is bound to "reader" and then to "lister". *)
Definition two_roles : Interface unit :=
  fixed_authority [user_binding "alice" "reader"; user_binding "alice" "lister"]
                  some_roles.

(** alice is bound to "reader", to a role that does not exist, and to
    "lister". *)
Definition missing_role : Interface unit :=
  fixed_authority [user_binding "alice" "reader"; user_binding "alice" "gone";
                   user_binding "alice" "lister"]
                  some_roles.

(** alice is bound to "wild" only. *)
Definition wildcard_group : Interface unit :=
  fixed_authority [user_binding "alice" "wild"] some_roles.

(** Only bob is bound as a user; alice appears as the name of a group. *)
Definition bob_bindings : rbacv1.ClusterRoleBindingList :=
  {| rbacv1.Items :=
       [user_binding "bob" "reader";
        {| rbacv1.Subjects :=
             [ {| rbacv1.Kind := "Group"; rbacv1.Name := "alice" |} ];
           rbacv1.RoleRef_ := {| rbacv1.RoleRefName := "lister" |} |}] |}.

Definition only_bob : Interface unit :=
  fixed_authority (rbacv1.Items bob_bindings) some_roles.

(** *** What the evaluator grants *)

(** The wildcard entry of [Resources] lists the verb or the wildcard verb. *)
Definition wildcard_grant (p : UserPermissions) (verb : string) : Prop :=
  ∃ ws, Resources p !! "*" = Some ws ∧ contains_or_wildcard verb ws.

(** The entry of the resource lists the verb or the wildcard verb, and the
    entry of the normalized group lists the resource or the wildcard
    resource. *)
Definition specific_grant (p : UserPermissions)
    (apiGroup resource verb : string) : Prop :=
  ∃ verbs allowed,
    Resources p !! resource = Some verbs ∧ contains_or_wildcard verb verbs ∧
    APIGroups p !! normalize apiGroup = Some allowed ∧
    contains_or_wildcard resource allowed.

(** Any verb on pods of the core group. *)
Definition pods_any_verb : UserPermissions :=
  {| Resources := {[ "pods" := ["*"] ]}; APIGroups := {[ "" := ["pods"] ]} |}.

(** *** What the resolver files *)

(** The key of [APIGroups] under which line 49 files a group of a rule. *)
Definition group_key (apiGroup : string) : string :=
  if String.eqb apiGroup "*" then "core" else apiGroup.

(** The rule lists a group that is filed under the key [k]. *)
Definition names_group (k : string) (rule : rbacv1.PolicyRule) : bool :=
  existsb (fun g => String.eqb (group_key g) k) (rbacv1.APIGroups rule).

(** What a rule appends under the key [k]: its resource list, once for
    every group of the rule that is filed under [k]. *)
Definition filed_under (k : string) (rule : rbacv1.PolicyRule) : list string :=
  flat_map (fun g => if String.eqb (group_key g) k
                     then rbacv1.Resources rule else [])
           (rbacv1.APIGroups rule).

(** The entry of [APIGroups] under [k] after the rules have been processed
    from the empty snapshot. *)
Definition group_entry (k : string) (rules : list rbacv1.PolicyRule)
    : option (list string) :=
  if existsb (names_group k) rules then Some (flat_map (filed_under k) rules)
  else None.

(** *** Which roles the resolver fetches *)

(** The role that a subject of a binding makes the resolver fetch. *)
Definition subject_roles (username : string) (crb : rbacv1.ClusterRoleBinding)
    (subject : rbacv1.Subject) : list string :=
  if String.eqb (rbacv1.Kind subject) "User"
     && String.eqb (rbacv1.Name subject) username
  then [rbacv1.RoleRefName (rbacv1.RoleRef_ crb)] else [].

(** The referenced role of every binding, once for every subject of the
    binding that names the user, in the order of the listing. *)
Definition matching_roles (username : string)
    (crbs : list rbacv1.ClusterRoleBinding) : list string :=
  flat_map (fun crb => flat_map (subject_roles username crb)
                                (rbacv1.Subjects crb)) crbs.

(** The names of the roles fetched in a trace. *)
Definition fetched_names (cs : list Call) : list string :=
  flat_map (fun c => match c with
                     | CallGet name _ => [name]
                     | CallList _ => []
                     end) cs.

(** A loop body that only fetches roles: the roles [names b] when it
    completes, and some of the first of them when it does not. *)
Definition fetches {W B : Type}
    (body : UserPermissions → B → M (State W) UserPermissions)
    (names : B → list string) : Prop :=
  ∀ p b st, ∃ cs,
    calls (body p b st).2 = calls st ++ cs ∧
    length (fetched_names cs) = length cs ∧
    match (body p b st).1 with
    | Ok _ => fetched_names cs = names b
    | _ => fetched_names cs `prefix_of` names b
    end.

(** One binding that names alice twice as a user. *)
Definition twice_bound : Interface unit :=
  fixed_authority
    [ {| rbacv1.Subjects :=
           [ {| rbacv1.Kind := "User"; rbacv1.Name := "alice" |};
             {| rbacv1.Kind := "User"; rbacv1.Name := "alice" |} ];
         rbacv1.RoleRef_ := {| rbacv1.RoleRefName := "reader" |} |} ]
    some_roles.

(** Role "admin" may do anything; the other roles are as before. *)
Definition more_roles (name : string) : error + rbacv1.ClusterRole :=
  if String.eqb name "admin" then inr (one_rule ["*"] ["*"] ["*"])
  else some_roles name.

(** alice is bound to "admin" and then to "reader". *)
Definition admin_then_reader : Interface unit :=
  fixed_authority [user_binding "alice" "admin"; user_binding "alice" "reader"]
                  more_roles.

End KubernetesSpec.

Module BusinessSpec.
Import Business.

(** A client whose self-review always gives the same answer. *)
Definition fixed_reviewer (answer : error + list SelfSubjectAccessReview)
    : ClientInterface unit :=
  {| GetSelfSubjectAccessReview := fun _ _ _ _ w => (answer, w) |}.

(** The cache holds for alice: pods may be got, secrets carry the wildcard
    verb; the entry was checked at instant 0. *)
Definition alice_entry : ResourcePermissions :=
  {| ResourcePermissions_ := {[ "pods" := ["get"]; "secrets" := ["*"] ]};
     LastChecked := 0%Z |}.

Definition alice_cached (t : Time) : State unit :=
  {| userPermissionsCache := {[ "alice" := Some alice_entry ]};
     now := t;
     authority := tt;
     calls := [];
     logged := [] |}.

(** One minute after the check the entry is fresh; one nanosecond past five
    minutes it is stale. *)
Definition fresh_state : State unit := alice_cached Minute.
Definition stale_state : State unit := alice_cached (5 * Minute + 1)%Z.

Definition unreachable : ClientInterface unit :=
  fixed_reviewer (inl (External "connection refused")).

(** No entry, or an entry older than five minutes. *)
Definition absent_or_stale {W : Type} (st : State W) (username : string)
    : Prop :=
  userPermissionsCache st !! username = None ∨
  ∃ permissions,
    userPermissionsCache st !! username = Some (Some permissions) ∧
    (5 * Minute < now st - LastChecked permissions)%Z.

(** What the live check returns for an answer of the authority. *)
Definition live_answer (out : error + list SelfSubjectAccessReview)
    : result bool :=
  match out with
  | inl err => Err (Errorf "error checking permissions: " err)
  | inr [] => Ok false
  | inr (first :: _) => Ok (Allowed (Status first))
  end.

(** The line that the live check logs for an answer of the authority. *)
Definition live_log (username resourceType : string)
    (out : error + list SelfSubjectAccessReview) : list string :=
  match out with
  | inl err =>
      ["Error checking permissions for user " +:+ username
       +:+ " on resource " +:+ resourceType +:+ ": " +:+ Error err]
  | inr _ => []
  end.

(** A client that allows everything. *)
Definition permissive : ClientInterface unit :=
  fixed_reviewer (inr [ {| Status := {| Allowed := true |} |} ]).

End BusinessSpec.

(** * Properties *)

Module KubernetesFacts.
Import Kubernetes KubernetesSpec.

Lemma matches_true wanted v : matches wanted v = true ↔ v = "*" ∨ v = wanted.
Proof.
  unfold matches. rewrite orb_true_iff, !String.eqb_eq. tauto.
Qed.

Lemma scan_contains wanted l :
  existsb (matches wanted) l = true ↔ contains_or_wildcard wanted l.
Proof.
  unfold contains_or_wildcard. rewrite existsb_exists. split.
  - intros (v & Hin & Hm). apply list_elem_of_In in Hin.
    apply matches_true in Hm as [-> | ->]; auto.
  - intros [H | H]; apply list_elem_of_In in H.
    + exists wanted. split; [done | apply matches_true; auto].
    + exists "*". split; [done | apply matches_true; auto].
Qed.

Lemma normalize_idem g : normalize (normalize g) = normalize g.
Proof.
  unfold normalize. destruct (String.eqb g "core") eqn:E; [done |].
  by rewrite E.
Qed.

(** The specific loop answers true exactly when some verb matches and the
    normalized group lists the resource. *)
Lemma specific_loop_spec p resource verb apiGroup verbs :
  specific_loop p resource verb apiGroup verbs = true ↔
  contains_or_wildcard verb verbs ∧
  ∃ allowed, APIGroups p !! normalize apiGroup = Some allowed ∧
             contains_or_wildcard resource allowed.
Proof.
  revert apiGroup. induction verbs as [| v verbs IH]; intros apiGroup; simpl.
  - split; [done |]. intros [[H | H] _]; by apply elem_of_nil in H.
  - fold (normalize apiGroup).
    assert (Hcons : contains_or_wildcard verb (v :: verbs) ↔
                    matches verb v = true ∨ contains_or_wildcard verb verbs).
    { unfold contains_or_wildcard. rewrite matches_true, !elem_of_cons.
      split; intros H; destruct_or?; subst; auto. }
    rewrite Hcons. destruct (matches verb v) eqn:Hm.
    + destruct (APIGroups p !! normalize apiGroup) as [allowed |] eqn:Hg.
      * destruct (existsb (matches resource) allowed) eqn:Hs.
        -- apply scan_contains in Hs. split; [| done].
           intros _. split; [by left |]. by exists allowed.
        -- rewrite IH, normalize_idem, Hg. split.
           ++ intros [Hc Ha]. split; [by right | done].
           ++ intros [_ (allowed' & [= <-] & Hc)].
              apply scan_contains in Hc. congruence.
      * rewrite IH, normalize_idem, Hg. split.
        -- intros [_ (? & ? & _)]. done.
        -- intros [_ (? & ? & _)]. done.
    + rewrite IH. split.
      * intros [Hc Ha]. split; [by right | done].
      * intros [[? | Hc] Ha]; [done |]. done.
Qed.

(** C1. A wildcard entry of [Resources] that lists the requested verb or the
    wildcard verb makes [HasPermission] answer true for every API group and
    every resource, whatever the [APIGroups] map holds. *)
Theorem HasPermission_global_wildcard
    (resources groups : gmap string (list string))
    (verbs : list string) (verb : string) :
  resources !! "*" = Some verbs →
  contains_or_wildcard verb verbs →
  ∀ apiGroup resource,
    HasPermission {| Resources := resources; APIGroups := groups |}
                  apiGroup resource verb = true.
Proof.
  intros Hw Hc apiGroup resource. unfold HasPermission. simpl.
  rewrite Hw. apply scan_contains in Hc. by rewrite Hc.
Qed.

Lemma HasPermission_global_wildcard_witness :
  HasPermission {| Resources := {[ "*" := ["*"] ]};
                   APIGroups := {[ "apps" := ["deployments"] ]} |}
                "batch" "jobs" "delete" = true.
Proof.
  apply (HasPermission_global_wildcard _ _ ["*"] "delete").
  - reflexivity.
  - right. apply list_elem_of_here.
Defined.

(** C2. Without a matching wildcard grant, and when [Resources[resource]]
    lists the verb or the wildcard verb, [HasPermission] answers true exactly
    when [APIGroups] at the normalized group lists the resource or the
    wildcard resource. *)
Theorem HasPermission_specific (p : UserPermissions)
    (apiGroup resource verb : string) (verbs : list string) :
  (∀ ws, Resources p !! "*" = Some ws → ¬ contains_or_wildcard verb ws) →
  Resources p !! resource = Some verbs →
  contains_or_wildcard verb verbs →
  HasPermission p apiGroup resource verb = true ↔
  ∃ allowed, APIGroups p !! normalize apiGroup = Some allowed ∧
             contains_or_wildcard resource allowed.
Proof.
  intros Hnw Hr Hc. unfold HasPermission.
  assert (Hw : match Resources p !! "*" with
               | Some ws => existsb (matches verb) ws
               | None => false
               end = false).
  { destruct (Resources p !! "*") as [ws |] eqn:E; [| done].
    apply not_true_is_false. intros Hs. apply scan_contains in Hs.
    by apply (Hnw ws). }
  rewrite Hw, Hr, specific_loop_spec. tauto.
Qed.

Lemma HasPermission_specific_witness :
  HasPermission pods_in_core "core" "pods" "get" = true ∧
  HasPermission services_in_core "core" "pods" "get" = false.
Proof.
  split.
  - apply (HasPermission_specific pods_in_core "core" "pods" "get" ["get"]).
    + intros ws Hws. vm_compute in Hws. discriminate.
    + reflexivity.
    + left. apply list_elem_of_here.
    + exists ["pods"]. split; [reflexivity | left; apply list_elem_of_here].
  - apply not_true_is_false. intros Ht.
    apply (HasPermission_specific services_in_core "core" "pods" "get" ["get"])
      in Ht as (allowed & Hl & Hc).
    + vm_compute in Hl. injection Hl as <-.
      destruct Hc as [Hc | Hc]; apply list_elem_of_In in Hc;
        simpl in Hc; intuition discriminate.
    + intros ws Hws. vm_compute in Hws. discriminate.
    + reflexivity.
    + left. apply list_elem_of_here.
Defined.

Lemma append_loop {A : Type} (xs acc : list A) :
  fold_left (fun filtered resource => filtered ++ [resource]) xs acc = acc ++ xs.
Proof.
  revert acc. induction xs as [| x xs IH]; intros acc; simpl.
  - by rewrite app_nil_r.
  - by rewrite IH, <- app_assoc.
Qed.

(** C9. [FilterResources] is an all-or-nothing gate: the empty sequence when
    [HasPermission] denies the verb "list" on the resource type, and otherwise
    the input items themselves, in the same order and number. *)
Theorem FilterResources_gate {A : Type} (p : UserPermissions)
    (apiGroup resourceType : string) (items : list A) :
  FilterResources p apiGroup resourceType items =
  if HasPermission p apiGroup resourceType "list" then items else [].
Proof.
  unfold FilterResources.
  destruct (HasPermission p apiGroup resourceType "list"); simpl; [| done].
  apply append_loop.
Qed.

(** *** The fold over rules *)

Lemma add_api_groups_Resources rule gs p :
  Resources (fold_left (add_api_group rule) gs p) = Resources p.
Proof.
  revert p. induction gs as [| g gs IH]; intros p; simpl; [done |].
  by rewrite IH.
Qed.

Lemma set_resource_lookup rule p r r' :
  Resources (set_resource rule p r) !! r' =
  if decide (r = r') then Some (rbacv1.Verbs rule) else Resources p !! r'.
Proof.
  unfold set_resource. destruct (String.eqb r "*") eqn:E; simpl.
  - apply String.eqb_eq in E as ->. apply lookup_insert.
  - apply lookup_insert.
Qed.

Lemma set_resources_lookup rule rs p r :
  Resources (fold_left (set_resource rule) rs p) !! r =
  if decide (r ∈ rs) then Some (rbacv1.Verbs rule) else Resources p !! r.
Proof.
  revert p. induction rs as [| r0 rs IH]; intros p; simpl.
  - destruct (decide (r ∈ [])) as [H | _]; [by apply elem_of_nil in H | done].
  - rewrite IH, set_resource_lookup.
    destruct (decide (r ∈ rs)) as [Hin | Hin].
    + rewrite decide_True; [done | by right].
    + destruct (decide (r0 = r)) as [-> | Hne].
      * rewrite decide_True; [done | by left].
      * rewrite decide_False; [done |].
        rewrite elem_of_cons. intros [-> | ?]; done.
Qed.

Lemma process_rule_lookup p rule r :
  Resources (process_rule p rule) !! r =
  if decide (r ∈ rbacv1.Resources rule) then Some (rbacv1.Verbs rule)
  else Resources p !! r.
Proof.
  unfold process_rule. by rewrite set_resources_lookup, add_api_groups_Resources.
Qed.

Lemma process_rules_untouched rules p r :
  (∀ rule, rule ∈ rules → r ∉ rbacv1.Resources rule) →
  Resources (fold_left process_rule rules p) !! r = Resources p !! r.
Proof.
  revert p. induction rules as [| rule rules IH]; intros p Hno; simpl; [done |].
  rewrite IH by (intros rule' H'; apply Hno; by right).
  rewrite process_rule_lookup, decide_False; [done |].
  apply Hno. by left.
Qed.

Lemma process_rules_last l1 rule l2 p r :
  r ∈ rbacv1.Resources rule →
  (∀ rule', rule' ∈ l2 → r ∉ rbacv1.Resources rule') →
  Resources (fold_left process_rule (l1 ++ rule :: l2) p) !! r =
  Some (rbacv1.Verbs rule).
Proof.
  intros Hin Hno. rewrite fold_left_app. simpl.
  rewrite process_rules_untouched by done.
  by rewrite process_rule_lookup, decide_True.
Qed.

(** *** The runs of the resolver *)

Lemma fetched_rules_app cs1 cs2 :
  fetched_rules (cs1 ++ cs2) = fetched_rules cs1 ++ fetched_rules cs2.
Proof. apply flat_map_app. Qed.

Section Runs.
Context {W : Type} (k8s : Interface W) (username : string).

Lemma for_range_traced {B : Type}
    (body : UserPermissions → B → M (State W) UserPermissions) :
  traced body → ∀ l, traced (fun p (_ : unit) => for_range body l p).
Proof.
  intros Hbody l. induction l as [| b l IH]; intros p [] st; simpl.
  - exists []. rewrite app_nil_r. split; [done |].
    apply (ends_ok p []). constructor.
  - unfold bind. destruct (Hbody p b st) as (cs1 & Hcs1 & Hend1).
    destruct (body p b st) as [[p1 | e |] st1] eqn:Hrun; simpl in *.
    + destruct (IH p1 tt st1) as (cs2 & Hcs2 & Hend2).
      exists (cs1 ++ cs2). rewrite Hcs2, Hcs1, app_assoc. split; [done |].
      inversion Hend1 as [Hall1 Heq1 |]; subst p1.
      inversion Hend2 as [Hall2 Heq2 | cs0 name cause -> Hall2 Heq2].
      * rewrite <- fold_left_app, <- fetched_rules_app.
        apply ends_ok. by apply Forall_app_2.
      * apply (ends_err _ _ (cs1 ++ cs0)); [by rewrite app_assoc |].
        by apply Forall_app_2.
    + by exists cs1.
    + inversion Hend1.
Qed.

Lemma process_subject_traced crb : traced (process_subject k8s username crb).
Proof.
  intros p subject st. unfold process_subject.
  destruct (_ && _).
  - unfold bind, get_role.
    destruct (GetClusterRole k8s _ (authority st)) as [[err | cr] w] eqn:Hget;
      simpl.
    + eexists. split; [done |].
      apply (ends_err _ _ []); [done | constructor].
    + eexists. split; [done |].
      replace (rbacv1.Rules cr)
        with (fetched_rules
                [CallGet (rbacv1.RoleRefName (rbacv1.RoleRef_ crb)) (inr cr)])
        by (simpl; apply app_nil_r).
      apply ends_ok. by repeat constructor.
  - exists []. rewrite app_nil_r. split; [done |].
    apply (ends_ok p []). constructor.
Qed.

(** Every run of the resolver: the listing fails and nothing else is
    called, or the listing is answered and the loops end as [ends_with]
    says. *)
Lemma GetUserPermissions_run st :
  match ListClusterRoleBindings k8s (authority st) with
  | (inl err, w) =>
      GetUserPermissions k8s username st =
      (Err (Errorf "failed to list ClusterRoleBindings: " err),
       {| authority := w; calls := calls st ++ [CallList (inl err)] |})
  | (inr crbs, _) =>
      ∃ cs,
        calls (GetUserPermissions k8s username st).2 =
          calls st ++ CallList (inr crbs) :: cs ∧
        ends_with no_permissions cs (GetUserPermissions k8s username st).1
  end.
Proof.
  unfold GetUserPermissions, bind, list_bindings.
  destruct (ListClusterRoleBindings k8s (authority st)) as [[err | crbs] w];
    [done |].
  set (st1 := {| authority := w; calls := calls st ++ [CallList (inr crbs)] |}).
  assert (Houter : traced (fun p crb =>
            for_range (process_subject k8s username crb)
                      (rbacv1.Subjects crb) p)).
  { intros p crb st0.
    apply (for_range_traced _ (process_subject_traced crb)
             (rbacv1.Subjects crb) p tt st0). }
  destruct (for_range_traced _ Houter (rbacv1.Items crbs) no_permissions tt st1)
    as (cs & Hcs & Hend).
  exists cs. split; [| exact Hend].
  etransitivity; [exact Hcs |]. simpl. by rewrite <- app_assoc.
Qed.

End Runs.

(** C5. When every call of a run is answered, the snapshot maps a resource
    to exactly the verbs of the last processed rule that names it: a rule
    processed earlier for the same resource leaves no trace (overwrite, not
    union). *)
Theorem GetUserPermissions_last_rule_wins {W : Type} (k8s : Interface W)
    (username : string) (w : W)
    (res : result UserPermissions) (st' : State W)
    (l1 l2 : list rbacv1.PolicyRule) (rule : rbacv1.PolicyRule)
    (resource : string) :
  GetUserPermissions k8s username {| authority := w; calls := [] |}
    = (res, st') →
  Forall succeeded (calls st') →
  fetched_rules (calls st') = l1 ++ rule :: l2 →
  resource ∈ rbacv1.Resources rule →
  (∀ rule', rule' ∈ l2 → resource ∉ rbacv1.Resources rule') →
  ∃ p, res = Ok p ∧ Resources p !! resource = Some (rbacv1.Verbs rule).
Proof.
  intros Hrun Hall Hrules Hin Hlast.
  pose proof (GetUserPermissions_run k8s username
                {| authority := w; calls := [] |}) as Hspec.
  rewrite Hrun in Hspec. simpl in Hspec.
  destruct (ListClusterRoleBindings k8s w) as [[err | crbs] w1].
  - injection Hspec as _ ->. simpl in Hall.
    apply Forall_inv in Hall. destruct Hall.
  - destruct Hspec as (cs & Hcs & Hend). rewrite Hcs in Hall, Hrules.
    apply Forall_inv_tail in Hall. simpl in Hrules.
    inversion Hend as [_ Hres | cs0 name cause -> _ Hres].
    + eexists. split; [done |]. rewrite Hrules.
      by apply process_rules_last.
    + apply Forall_app in Hall as [_ Hall].
      apply Forall_inv in Hall. destruct Hall.
Qed.

Lemma GetUserPermissions_last_rule_wins_witness :
  ∃ p, (GetUserPermissions two_roles "alice" start).1 = Ok p ∧
       Resources p !! "pods" = Some ["list"].
Proof.
  apply (GetUserPermissions_last_rule_wins two_roles "alice" tt
           (GetUserPermissions two_roles "alice" start).1
           (GetUserPermissions two_roles "alice" start).2
           [ {| rbacv1.Verbs := ["get"]; rbacv1.APIGroups := [""];
                rbacv1.Resources := ["pods"] |} ]
           []
           {| rbacv1.Verbs := ["list"]; rbacv1.APIGroups := [""];
              rbacv1.Resources := ["pods"] |}
           "pods").
  - reflexivity.
  - vm_compute. repeat constructor.
  - reflexivity.
  - apply list_elem_of_here.
  - intros rule' H. by apply elem_of_nil in H.
Defined.

(** C7. A failed fetch of a role ends the resolution: the result is the
    error that wraps the failure, no snapshot is returned, and the failed
    fetch is the last call made. *)
Theorem GetUserPermissions_fetch_failure {W : Type} (k8s : Interface W)
    (username : string) (w : W)
    (res : result UserPermissions) (st' : State W)
    (name : string) (cause : error) :
  GetUserPermissions k8s username {| authority := w; calls := [] |}
    = (res, st') →
  CallGet name (inl cause) ∈ calls st' →
  res = Err (Errorf ("failed to get ClusterRole " +:+ name +:+ ": ") cause) ∧
  AuthorityError (Errorf ("failed to get ClusterRole " +:+ name +:+ ": ") cause) ∧
  ∃ cs0, calls st' = cs0 ++ [CallGet name (inl cause)] ∧ Forall succeeded cs0.
Proof.
  intros Hrun Hin.
  pose proof (GetUserPermissions_run k8s username
                {| authority := w; calls := [] |}) as Hspec.
  rewrite Hrun in Hspec. simpl in Hspec.
  destruct (ListClusterRoleBindings k8s w) as [[err | crbs] w1].
  - injection Hspec as _ ->. simpl in Hin.
    apply list_elem_of_singleton in Hin. discriminate.
  - destruct Hspec as (cs & Hcs & Hend). rewrite Hcs in Hin |- *.
    apply elem_of_cons in Hin as [? | Hin]; [discriminate |].
    inversion Hend as [Hall Hres | cs0 name' cause' -> Hall Hres].
    + rewrite Forall_forall in Hall. destruct (Hall _ Hin).
    + apply elem_of_app in Hin as [Hin | Hin].
      * rewrite Forall_forall in Hall. destruct (Hall _ Hin).
      * apply list_elem_of_singleton in Hin. injection Hin as <- <-.
        split; [done |]. split; [by eexists _, _ |].
        exists (CallList (inr crbs) :: cs0). split; [done |].
        constructor; [exact I | done].
Qed.

Lemma GetUserPermissions_fetch_failure_witness :
  (GetUserPermissions missing_role "alice" start).1 =
    Err (Errorf "failed to get ClusterRole gone: "
                (External "clusterroles gone not found")) ∧
  AuthorityError (Errorf "failed to get ClusterRole gone: "
                         (External "clusterroles gone not found")) ∧
  ∃ cs0, calls (GetUserPermissions missing_role "alice" start).2 =
           cs0 ++ [CallGet "gone" (inl (External "clusterroles gone not found"))] ∧
         Forall succeeded cs0.
Proof.
  apply (GetUserPermissions_fetch_failure missing_role "alice" tt
           (GetUserPermissions missing_role "alice" start).1
           (GetUserPermissions missing_role "alice" start).2
           "gone" (External "clusterroles gone not found")).
  - reflexivity.
  - vm_compute. do 2 right. left.
Defined.

(** *** A principal that no binding names *)

Lemma subjects_skipped {W : Type} (k8s : Interface W) username crb subjects p st :
  (∀ subject, subject ∈ subjects → ¬ names_user username subject) →
  for_range (process_subject k8s username crb) subjects p st = (Ok p, st).
Proof.
  induction subjects as [| subject subjects IH]; intros Hno; simpl; [done |].
  unfold bind, process_subject at 1.
  assert (Hskip : String.eqb (rbacv1.Kind subject) "User"
                  && String.eqb (rbacv1.Name subject) username = false).
  { apply not_true_is_false. rewrite andb_true_iff, !String.eqb_eq.
    apply Hno. by left. }
  rewrite Hskip. simpl. apply IH. intros s Hs. apply Hno. by right.
Qed.

Lemma bindings_skipped {W : Type} (k8s : Interface W) username crbs p st :
  (∀ crb subject, crb ∈ crbs → subject ∈ rbacv1.Subjects crb →
                  ¬ names_user username subject) →
  for_range (fun p crb => for_range (process_subject k8s username crb)
                                    (rbacv1.Subjects crb) p)
            crbs p st = (Ok p, st).
Proof.
  induction crbs as [| crb crbs IH]; intros Hno; simpl; [done |].
  unfold bind. rewrite subjects_skipped.
  - apply IH. intros crb' s Hc. apply Hno. by right.
  - intros s. apply Hno. by left.
Qed.

Lemma no_permissions_denied apiGroup resource verb :
  HasPermission {| Resources := ∅; APIGroups := ∅ |} apiGroup resource verb
  = false.
Proof. unfold HasPermission. simpl. by rewrite !lookup_empty. Qed.

(** C10. When the listing is answered and none of its bindings has a
    subject of kind "User" named as the principal, the resolver returns the
    snapshot with both maps empty, after the listing call alone (no role is
    fetched); [HasPermission] denies everything on that snapshot. *)
Theorem GetUserPermissions_unbound {W : Type} (k8s : Interface W)
    (username : string) (st : State W)
    (crbs : rbacv1.ClusterRoleBindingList) (w : W) :
  ListClusterRoleBindings k8s (authority st) = (inr crbs, w) →
  (∀ crb subject, crb ∈ rbacv1.Items crbs → subject ∈ rbacv1.Subjects crb →
                  ¬ (rbacv1.Kind subject = "User" ∧
                     rbacv1.Name subject = username)) →
  GetUserPermissions k8s username st =
    (Ok {| Resources := ∅; APIGroups := ∅ |},
     {| authority := w; calls := calls st ++ [CallList (inr crbs)] |}) ∧
  ∀ apiGroup resource verb,
    HasPermission {| Resources := ∅; APIGroups := ∅ |} apiGroup resource verb
    = false.
Proof.
  intros Hlist Hno. split; [| apply no_permissions_denied].
  unfold GetUserPermissions, bind, list_bindings. rewrite Hlist.
  by apply bindings_skipped.
Qed.

Lemma GetUserPermissions_unbound_witness :
  GetUserPermissions only_bob "alice" start =
    (Ok {| Resources := ∅; APIGroups := ∅ |},
     {| authority := tt;
        calls := [CallList (inr bob_bindings)] |}) ∧
  ∀ apiGroup resource verb,
    HasPermission {| Resources := ∅; APIGroups := ∅ |} apiGroup resource verb
    = false.
Proof.
  apply (GetUserPermissions_unbound only_bob "alice" start bob_bindings tt).
  - reflexivity.
  - intros crb subject Hc Hs [Hk Hn].
    apply list_elem_of_In in Hc. simpl in Hc.
    destruct Hc as [<- | [<- | []]]; apply list_elem_of_In in Hs; simpl in Hs;
      destruct Hs as [<- | []]; simpl in *; discriminate.
Defined.

(** *** The wildcard API group *)

(** The group that [HasPermission] looks up is never the key "core". *)
Lemma normalize_not_core apiGroup : normalize apiGroup ≠ "core".
Proof.
  unfold normalize. destruct (String.eqb apiGroup "core") eqn:E; [done |].
  by apply String.eqb_neq.
Qed.

(** A snapshot whose API groups sit under the key "core" only, and which has
    no wildcard resource entry, grants nothing. *)
Lemma core_key_unreachable p apiGroup resource verb :
  Resources p !! "*" = None →
  (∀ g, g ≠ "core" → APIGroups p !! g = None) →
  HasPermission p apiGroup resource verb = false.
Proof.
  intros Hw Hcore. apply not_true_is_false. unfold HasPermission.
  rewrite Hw. destruct (Resources p !! resource) as [verbs |]; [| done].
  rewrite specific_loop_spec. intros [_ (allowed & Hl & _)].
  rewrite Hcore in Hl; [done | apply normalize_not_core].
Qed.

(** The same for any single rule on the wildcard group that names a
    concrete resource. *)
Lemma wildcard_group_rule_denied (r v apiGroup : string) :
  r ≠ "*" →
  HasPermission
    (process_rule no_permissions
       {| rbacv1.Verbs := [v]; rbacv1.APIGroups := ["*"];
          rbacv1.Resources := [r] |})
    apiGroup r v = false.
Proof.
  intros Hr. apply core_key_unreachable.
  - rewrite process_rule_lookup, decide_False; [apply lookup_empty |].
    simpl. intros H%list_elem_of_singleton. congruence.
  - intros g Hg. unfold process_rule. simpl. unfold set_resource.
    apply String.eqb_neq in Hr. rewrite Hr. simpl.
    rewrite lookup_insert_ne; [apply lookup_empty | congruence].
Qed.

(** C6. A role with the single rule (API groups ["*"], resources ["pods"],
    verbs ["get"]) resolves to a snapshot that files "pods" under the API
    group key "core", where [HasPermission] never looks: the request is
    denied for every API group, "core" and "" included. *)
Theorem wildcard_group_grants_nothing :
  ∃ p, (GetUserPermissions wildcard_group "alice" start).1 = Ok p ∧
       Resources p = {[ "pods" := ["get"] ]} ∧
       APIGroups p = {[ "core" := ["pods"] ]} ∧
       ∀ apiGroup, HasPermission p apiGroup "pods" "get" = false.
Proof.
  eexists. split; [reflexivity |]. split; [reflexivity |].
  split; [reflexivity |]. intros apiGroup. apply core_key_unreachable.
  - reflexivity.
  - intros g Hg. simpl.
    rewrite lookup_insert_ne; [apply lookup_empty | congruence].
Qed.

End KubernetesFacts.

Module BusinessFacts.
Import Business BusinessSpec.

(** Saturation does not change the comparison with five minutes. *)
Lemma stale_iff (t u : Time) :
  (5 * Minute <? Sub t u)%Z = true ↔ (5 * Minute < t - u)%Z.
Proof.
  unfold Sub, minDuration, maxDuration, Minute.
  rewrite Z.ltb_lt.
  destruct (Z.ltb_spec (t - u) (- 2 ^ 63)); [lia |].
  destruct (Z.ltb_spec (2 ^ 63 - 1) (t - u)); lia.
Qed.

Lemma cached_check_true permissions resourceType verb :
  cached_check permissions resourceType verb = true ↔
  ∃ verbs, ResourcePermissions_ permissions !! resourceType = Some verbs ∧
           verb ∈ verbs.
Proof.
  unfold cached_check.
  destruct (ResourcePermissions_ permissions !! resourceType) as [verbs |].
  - rewrite existsb_exists. split.
    + intros (v & Hin & Heq). apply String.eqb_eq in Heq as ->.
      exists verbs. split; [done | by apply list_elem_of_In].
    + intros (verbs' & [= <-] & Hin). exists verb.
      split; [by apply list_elem_of_In | apply String.eqb_refl].
  - split; [done | by intros (? & ? & _)].
Qed.

(** C3. With a fresh entry in the cache, [CheckUserPermissions] answers
    from the entry alone and leaves the state as it was; the answer is true
    exactly when the verb occurs literally among the verbs cached for the
    resource type.  The wildcard is not expanded in either direction. *)
Theorem CheckUserPermissions_fresh {W : Type} (userClient : ClientInterface W)
    (st : State W) (username resourceType verb : string)
    (permissions : ResourcePermissions) :
  userPermissionsCache st !! username = Some (Some permissions) →
  (now st - LastChecked permissions ≤ 5 * Minute)%Z →
  ∃ b, CheckUserPermissions userClient username resourceType verb st
       = (Ok b, st) ∧
       (b = true ↔
        ∃ verbs, ResourcePermissions_ permissions !! resourceType = Some verbs ∧
                 verb ∈ verbs) ∧
       (ResourcePermissions_ permissions !! resourceType = Some ["*"] →
        verb ≠ "*" → b = false) ∧
       (∀ v, ResourcePermissions_ permissions !! resourceType = Some [v] →
             v ≠ "*" → verb = "*" → b = false).
Proof.
  intros Hentry Hfresh.
  exists (cached_check permissions resourceType verb).
  split; [| split; [apply cached_check_true | split]].
  - unfold CheckUserPermissions, bind, get. rewrite Hentry.
    assert (Hcmp : (5 * Minute <? Since st (LastChecked permissions))%Z = false).
    { apply not_true_is_false. unfold Since. rewrite stale_iff. lia. }
    by rewrite Hcmp.
  - intros Hverbs Hne. apply not_true_is_false.
    rewrite cached_check_true. intros (verbs & Hl & Hin).
    rewrite Hverbs in Hl. injection Hl as <-.
    by apply list_elem_of_singleton in Hin.
  - intros v Hverbs Hne ->. apply not_true_is_false.
    rewrite cached_check_true. intros (verbs & Hl & Hin).
    rewrite Hverbs in Hl. injection Hl as <-.
    apply list_elem_of_singleton in Hin. congruence.
Qed.

Lemma CheckUserPermissions_fresh_witness :
  CheckUserPermissions unreachable "alice" "pods" "get" fresh_state
    = (Ok true, fresh_state) ∧
  CheckUserPermissions unreachable "alice" "pods" "*" fresh_state
    = (Ok false, fresh_state) ∧
  CheckUserPermissions unreachable "alice" "secrets" "get" fresh_state
    = (Ok false, fresh_state).
Proof.
  assert (Hentry : userPermissionsCache fresh_state !! "alice"
                   = Some (Some alice_entry)) by reflexivity.
  assert (Hfresh : (now fresh_state - LastChecked alice_entry ≤ 5 * Minute)%Z)
    by (vm_compute; discriminate).
  split; [| split].
  - destruct (CheckUserPermissions_fresh unreachable fresh_state
                "alice" "pods" "get" alice_entry Hentry Hfresh)
      as (b & -> & Hb & _).
    replace b with true; [done |]. symmetry. apply Hb.
    exists ["get"]. split; [reflexivity | apply list_elem_of_here].
  - destruct (CheckUserPermissions_fresh unreachable fresh_state
                "alice" "pods" "*" alice_entry Hentry Hfresh)
      as (b & -> & _ & _ & Hb).
    rewrite (Hb "get"); [done | reflexivity | discriminate | reflexivity].
  - destruct (CheckUserPermissions_fresh unreachable fresh_state
                "alice" "secrets" "get" alice_entry Hentry Hfresh)
      as (b & -> & _ & Hb & _).
    rewrite Hb; [done | reflexivity | discriminate].
Defined.

Lemma live_check_run {W : Type} (userClient : ClientInterface W)
    (st : State W) (username resourceType verb : string)
    (out : error + list SelfSubjectAccessReview) (w : W) :
  GetSelfSubjectAccessReview userClient "" "" resourceType [verb] (authority st)
    = (out, w) →
  let run := live_check userClient username resourceType verb st in
  run.1 = live_answer out ∧
  userPermissionsCache run.2 = userPermissionsCache st ∧
  authority run.2 = w ∧
  calls run.2 = calls st ++ [CallSelfReview "" "" resourceType [verb] out].
Proof.
  intros Hcall. unfold live_check, bind, self_review. rewrite Hcall.
  destruct out as [err | [| first rest]]; simpl; done.
Qed.

(** C4. With no entry or a stale entry in the cache, [CheckUserPermissions]
    makes one self-review call, for the resource type and the one verb, and
    returns: the wrapped error when the call fails (whatever the stale entry
    says), false when the answer is empty, and the first answer's [Allowed]
    otherwise.  The cache is left as it was. *)
Theorem CheckUserPermissions_live {W : Type} (userClient : ClientInterface W)
    (st : State W) (username resourceType verb : string)
    (out : error + list SelfSubjectAccessReview) (w : W) :
  absent_or_stale st username →
  GetSelfSubjectAccessReview userClient "" "" resourceType [verb] (authority st)
    = (out, w) →
  let run := CheckUserPermissions userClient username resourceType verb st in
  calls run.2 = calls st ++ [CallSelfReview "" "" resourceType [verb] out] ∧
  userPermissionsCache run.2 = userPermissionsCache st ∧
  match out with
  | inl err =>
      run.1 = Err (Errorf "error checking permissions: " err) ∧
      AuthorityError (Errorf "error checking permissions: " err)
  | inr [] => run.1 = Ok false
  | inr (first :: _) => run.1 = Ok (Allowed (Status first))
  end.
Proof.
  intros Hstale Hcall run.
  assert (Hrun : run = live_check userClient username resourceType verb st).
  { subst run. unfold CheckUserPermissions, bind at 1, get.
    destruct Hstale as [-> | (permissions & -> & Hold)]; [done |].
    apply stale_iff in Hold. unfold Since. by rewrite Hold. }
  rewrite Hrun.
  destruct (live_check_run userClient st username resourceType verb out w Hcall)
    as (Hres & Hcache & _ & Hcalls).
  split; [done |]. split; [done |]. rewrite Hres.
  destruct out as [err | [| first rest]]; simpl; [| done | done].
  split; [done |]. by eexists _, _.
Qed.

Lemma CheckUserPermissions_live_witness :
  let run := CheckUserPermissions unreachable "alice" "pods" "get" stale_state in
  calls run.2 =
    [CallSelfReview "" "" "pods" ["get"] (inl (External "connection refused"))] ∧
  userPermissionsCache run.2 = userPermissionsCache stale_state ∧
  run.1 = Err (Errorf "error checking permissions: "
                      (External "connection refused")) ∧
  AuthorityError (Errorf "error checking permissions: "
                         (External "connection refused")).
Proof.
  apply (CheckUserPermissions_live unreachable stale_state "alice" "pods" "get"
           (inl (External "connection refused")) tt).
  - right. exists alice_entry. split; [reflexivity |].
    vm_compute. reflexivity.
  - reflexivity.
Defined.

(** A present key that holds the nil pointer makes the freshness test
    panic. *)
Lemma CheckUserPermissions_nil_entry {W : Type}
    (userClient : ClientInterface W) (st : State W)
    (username resourceType verb : string) :
  userPermissionsCache st !! username = Some None →
  CheckUserPermissions userClient username resourceType verb st = (Panic, st).
Proof.
  intros Hnil. unfold CheckUserPermissions, bind, get. by rewrite Hnil.
Qed.

(** C8. The cache is an exact map: what [CacheUserPermissions] stores
    under a principal is what [GetUserPermissions] returns for it, and after
    [ClearUserPermissions] the principal has no entry, whether or not it had
    one before. *)
Theorem cache_exact_map {W : Type} (st : State W) (username : string)
    (permissions : option ResourcePermissions) :
  (GetUserPermissions username
     (CacheUserPermissions username permissions st).2).1 = Ok permissions ∧
  (GetUserPermissions username
     (ClearUserPermissions username st).2).1 = Ok None ∧
  userPermissionsCache (ClearUserPermissions username st).2 !! username = None.
Proof.
  unfold GetUserPermissions, CacheUserPermissions, ClearUserPermissions,
    bind, get, set_cache, ret. simpl.
  by rewrite lookup_insert_eq, lookup_delete_eq.
Qed.

End BusinessFacts.

(** * Further properties of the evaluator *)

Module EvaluatorFacts.
Import Kubernetes KubernetesSpec KubernetesFacts.

(** [HasPermission] answers true exactly on a wildcard grant or a specific
    grant. *)
Lemma HasPermission_granted p apiGroup resource verb :
  HasPermission p apiGroup resource verb = true ↔
  wildcard_grant p verb ∨ specific_grant p apiGroup resource verb.
Proof.
  unfold HasPermission, wildcard_grant, specific_grant.
  destruct (Resources p !! "*") as [ws |] eqn:Hw.
  - destruct (existsb (matches verb) ws) eqn:Hs.
    + apply scan_contains in Hs. split; [| done].
      intros _. left. by exists ws.
    + assert (Hnot : ¬ contains_or_wildcard verb ws).
      { rewrite <- scan_contains. congruence. }
      destruct (Resources p !! resource) as [verbs |] eqn:Hr.
      * rewrite specific_loop_spec. split.
        -- intros (Hc & allowed & Hl & Ha). right. by exists verbs, allowed.
        -- intros [(ws' & [= <-] & Hc) | (vs & allowed & [= <-] & Hc & Hl & Ha)];
             [done |]. split; [done |]. by exists allowed.
      * split; [done |].
        intros [(ws' & [= <-] & Hc) | (vs & allowed & ? & _)]; done.
  - destruct (Resources p !! resource) as [verbs |] eqn:Hr.
    + rewrite specific_loop_spec. split.
      * intros (Hc & allowed & Hl & Ha). right. by exists verbs, allowed.
      * intros [(ws' & ? & _) | (vs & allowed & [= <-] & Hc & Hl & Ha)];
          [done |]. split; [done |]. by exists allowed.
    + split; [done |].
      intros [(ws' & ? & _) | (vs & allowed & ? & _)]; done.
Qed.

(** X1. [HasPermission] is true exactly when the wildcard entry of
    [Resources] lists the verb or "*", or the entry of the resource lists the
    verb or "*" and the entry of the normalized API group lists the resource
    or "*"; in every other case (a missing key, an empty list) it is false. *)
Theorem HasPermission_iff (p : UserPermissions)
    (apiGroup resource verb : string) :
  HasPermission p apiGroup resource verb = true ↔
  (∃ ws, Resources p !! "*" = Some ws ∧ (verb ∈ ws ∨ "*" ∈ ws)) ∨
  (∃ verbs allowed,
     Resources p !! resource = Some verbs ∧ (verb ∈ verbs ∨ "*" ∈ verbs) ∧
     APIGroups p !! (if String.eqb apiGroup "core" then "" else apiGroup)
       = Some allowed ∧
     (resource ∈ allowed ∨ "*" ∈ allowed)).
Proof. apply HasPermission_granted. Qed.

(** X2. The requested groups "core" and "" are answered alike. *)
Theorem HasPermission_core_synonym (p : UserPermissions)
    (resource verb : string) :
  HasPermission p "core" resource verb = HasPermission p "" resource verb.
Proof.
  apply eq_true_iff_eq. rewrite !HasPermission_granted.
  unfold specific_grant. reflexivity.
Qed.

(** X3. A snapshot that grants the requested verb "*" grants every verb on
    the same group and resource. *)
Theorem HasPermission_wildcard_verb_request (p : UserPermissions)
    (apiGroup resource verb : string) :
  HasPermission p apiGroup resource "*" = true →
  HasPermission p apiGroup resource verb = true.
Proof.
  rewrite !HasPermission_granted.
  assert (Hup : ∀ l, contains_or_wildcard "*" l → contains_or_wildcard verb l).
  { intros l [H | H]; by right. }
  intros [(ws & Hw & Hc) | (verbs & allowed & Hr & Hc & Hl & Ha)].
  - left. exists ws. auto.
  - right. exists verbs, allowed. auto.
Qed.

Lemma HasPermission_wildcard_verb_request_witness :
  HasPermission pods_any_verb "core" "pods" "delete" = true.
Proof.
  apply (HasPermission_wildcard_verb_request pods_any_verb "core" "pods" "delete").
  reflexivity.
Defined.

(** X4. The entry of [APIGroups] under the key "core" is never read:
    setting it or removing it changes no answer. *)
Theorem HasPermission_core_key_unread (resources groups : gmap string (list string))
    (l : list string) (apiGroup resource verb : string) :
  HasPermission {| Resources := resources; APIGroups := <[ "core" := l ]> groups |}
                apiGroup resource verb
  = HasPermission {| Resources := resources; APIGroups := groups |}
                  apiGroup resource verb ∧
  HasPermission {| Resources := resources; APIGroups := delete "core" groups |}
                apiGroup resource verb
  = HasPermission {| Resources := resources; APIGroups := groups |}
                  apiGroup resource verb.
Proof.
  split; apply eq_true_iff_eq; rewrite !HasPermission_granted;
    unfold wildcard_grant, specific_grant; simpl.
  - by rewrite lookup_insert_ne by (apply not_eq_sym, normalize_not_core).
  - by rewrite lookup_delete_ne by (apply not_eq_sym, normalize_not_core).
Qed.

(** X5. A request for the resource "*" is decided by the wildcard entry of
    [Resources] alone; [APIGroups] plays no part. *)
Theorem HasPermission_wildcard_resource_request (p : UserPermissions)
    (apiGroup verb : string) :
  HasPermission p apiGroup "*" verb = true ↔
  ∃ ws, Resources p !! "*" = Some ws ∧ (verb ∈ ws ∨ "*" ∈ ws).
Proof.
  rewrite HasPermission_granted. split; [| by left].
  intros [Hw | (verbs & allowed & Hr & Hc & _)]; [done |].
  by exists verbs.
Qed.

End EvaluatorFacts.

(** * Further properties of the resolver *)

Module ResolverFacts.
Import Kubernetes KubernetesSpec KubernetesFacts EvaluatorFacts.

(** A run in which every call was answered returns the fold of the fetched
    rules. *)
Lemma run_answered {W : Type} (k8s : Interface W) (username : string) (w : W)
    (res : result UserPermissions) (st' : State W) :
  GetUserPermissions k8s username {| authority := w; calls := [] |}
    = (res, st') →
  Forall succeeded (calls st') →
  res = Ok (fold_left process_rule (fetched_rules (calls st')) no_permissions).
Proof.
  intros Hrun Hall.
  pose proof (GetUserPermissions_run k8s username
                {| authority := w; calls := [] |}) as Hspec.
  rewrite Hrun in Hspec. simpl in Hspec.
  destruct (ListClusterRoleBindings k8s w) as [[err | crbs] w1].
  - injection Hspec as _ ->. simpl in Hall.
    apply Forall_inv in Hall. destruct Hall.
  - destruct Hspec as (cs & Hcs & Hend). rewrite Hcs in Hall |- *.
    apply Forall_inv_tail in Hall. simpl.
    inversion Hend as [_ Hres | cs0 name cause -> _ Hres]; [done |].
    apply Forall_app in Hall as [_ Hall].
    apply Forall_inv in Hall. destruct Hall.
Qed.

(** *** The listing fails *)

(** X6. When the listing of the bindings fails, the resolver returns the
    error that wraps the failure and makes no other call: no role is
    fetched. *)
Theorem GetUserPermissions_list_failure {W : Type} (k8s : Interface W)
    (username : string) (st : State W) (err : error) (w : W) :
  ListClusterRoleBindings k8s (authority st) = (inl err, w) →
  GetUserPermissions k8s username st =
    (Err (Errorf "failed to list ClusterRoleBindings: " err),
     {| authority := w; calls := calls st ++ [CallList (inl err)] |}).
Proof.
  intros Hlist.
  pose proof (GetUserPermissions_run k8s username st) as Hspec.
  by rewrite Hlist in Hspec.
Qed.

Lemma GetUserPermissions_list_failure_witness :
  GetUserPermissions
    {| ListClusterRoleBindings := fun w => (inl (External "timeout"), w);
       GetClusterRole := fun name w => (some_roles name, w) |}
    "alice" start
  = (Err (Errorf "failed to list ClusterRoleBindings: " (External "timeout")),
     {| authority := tt; calls := [CallList (inl (External "timeout"))] |}).
Proof.
  apply (GetUserPermissions_list_failure
           {| ListClusterRoleBindings := fun w => (inl (External "timeout"), w);
              GetClusterRole := fun name w => (some_roles name, w) |}
           "alice" start (External "timeout") tt).
  reflexivity.
Defined.

(** *** The entries of [APIGroups] *)

Lemma no_hit_no_adds {B : Type} (hits : B → bool) (adds : B → list string) l :
  (∀ b, hits b = false → adds b = []) →
  existsb hits l = false → flat_map adds l = [].
Proof.
  intros Hzero. induction l as [| b l IH]; simpl; [done |].
  intros [Hb Hl]%orb_false_iff. by rewrite (Hzero b Hb), IH.
Qed.

(** A fold whose steps append to the entry under [k] or leave it alone. *)
Lemma fold_appends {B : Type} (step : UserPermissions → B → UserPermissions)
    (hits : B → bool) (adds : B → list string) (k : string) :
  (∀ b, hits b = false → adds b = []) →
  (∀ p b, APIGroups (step p b) !! k =
          if hits b then Some (default [] (APIGroups p !! k) ++ adds b)
          else APIGroups p !! k) →
  ∀ l p, APIGroups (fold_left step l p) !! k =
         if existsb hits l
         then Some (default [] (APIGroups p !! k) ++ flat_map adds l)
         else APIGroups p !! k.
Proof.
  intros Hzero Hstep. induction l as [| b l IH]; intros p; simpl; [done |].
  rewrite IH, Hstep.
  destruct (hits b) eqn:Hb, (existsb hits l) eqn:Hl; simpl.
  - by rewrite <- app_assoc.
  - by rewrite (no_hit_no_adds hits adds l Hzero Hl), app_nil_r.
  - by rewrite (Hzero b Hb).
  - done.
Qed.

Lemma add_api_group_lookup rule p g k :
  APIGroups (add_api_group rule p g) !! k =
  if String.eqb (group_key g) k
  then Some (default [] (APIGroups p !! k) ++ rbacv1.Resources rule)
  else APIGroups p !! k.
Proof.
  unfold add_api_group. fold (group_key g). simpl.
  destruct (String.eqb (group_key g) k) eqn:E.
  - apply String.eqb_eq in E as <-. apply lookup_insert_eq.
  - apply String.eqb_neq in E. by apply lookup_insert_ne.
Qed.

Lemma set_resources_APIGroups rule rs p :
  APIGroups (fold_left (set_resource rule) rs p) = APIGroups p.
Proof.
  revert p. induction rs as [| r rs IH]; intros p; simpl; [done |].
  rewrite IH. unfold set_resource. by destruct (String.eqb r "*").
Qed.

Lemma filed_under_nil k rule : names_group k rule = false → filed_under k rule = [].
Proof.
  unfold names_group, filed_under. apply no_hit_no_adds.
  by intros g ->.
Qed.

Lemma process_rule_groups p rule k :
  APIGroups (process_rule p rule) !! k =
  if names_group k rule
  then Some (default [] (APIGroups p !! k) ++ filed_under k rule)
  else APIGroups p !! k.
Proof.
  unfold process_rule. rewrite set_resources_APIGroups.
  apply (fold_appends (add_api_group rule)
           (fun g => String.eqb (group_key g) k)
           (fun g => if String.eqb (group_key g) k
                     then rbacv1.Resources rule else [])).
  - by intros g ->.
  - intros q g. rewrite add_api_group_lookup.
    by destruct (String.eqb (group_key g) k).
Qed.

Lemma process_rules_groups rules k :
  APIGroups (fold_left process_rule rules no_permissions) !! k
  = group_entry k rules.
Proof.
  unfold group_entry.
  rewrite (fold_appends process_rule (names_group k) (filed_under k) k
             (filed_under_nil k) (fun p rule => process_rule_groups p rule k)).
  simpl. by rewrite lookup_empty.
Qed.

(** X7. When every call of a run is answered, the entry of [APIGroups]
    under a key is the concatenation, in processing order, of the resource
    lists of the processed rules, one copy for every group of a rule that is
    filed under the key (the group "*" is filed under "core"); the key is
    absent when no processed rule lists such a group.  Nothing is removed and
    duplicates are kept. *)
Theorem GetUserPermissions_groups_appended {W : Type} (k8s : Interface W)
    (username : string) (w : W)
    (res : result UserPermissions) (st' : State W) (k : string) :
  GetUserPermissions k8s username {| authority := w; calls := [] |}
    = (res, st') →
  Forall succeeded (calls st') →
  ∃ p, res = Ok p ∧
       APIGroups p !! k = group_entry k (fetched_rules (calls st')).
Proof.
  intros Hrun Hall. eexists. split; [by apply (run_answered k8s username w) |].
  apply process_rules_groups.
Qed.

Lemma GetUserPermissions_groups_appended_witness :
  ∃ p, (GetUserPermissions two_roles "alice" start).1 = Ok p ∧
       APIGroups p !! "" = Some ["pods"; "pods"].
Proof.
  apply (GetUserPermissions_groups_appended two_roles "alice" tt
           (GetUserPermissions two_roles "alice" start).1
           (GetUserPermissions two_roles "alice" start).2 "").
  - reflexivity.
  - vm_compute. repeat constructor.
Defined.

Lemma group_key_not_wildcard g : group_key g ≠ "*".
Proof.
  unfold group_key. destruct (String.eqb g "*") eqn:E; [done |].
  by apply String.eqb_neq.
Qed.

Lemma group_entry_wildcard rules : group_entry "*" rules = None.
Proof.
  unfold group_entry.
  assert (Hno : existsb (names_group "*") rules = false).
  { apply not_true_is_false. rewrite existsb_exists.
    intros (rule & _ & Hn). unfold names_group in Hn.
    apply existsb_exists in Hn as (g & _ & Hg).
    apply String.eqb_eq in Hg. by apply group_key_not_wildcard in Hg. }
  by rewrite Hno.
Qed.

(** X8. A resolved snapshot never has the key "*" in [APIGroups], so a
    request for the API group "*" is granted only by the wildcard entry of
    [Resources]. *)
Theorem GetUserPermissions_no_wildcard_group {W : Type} (k8s : Interface W)
    (username : string) (w : W)
    (res : result UserPermissions) (st' : State W) :
  GetUserPermissions k8s username {| authority := w; calls := [] |}
    = (res, st') →
  Forall succeeded (calls st') →
  ∃ p, res = Ok p ∧
       APIGroups p !! "*" = None ∧
       ∀ resource verb,
         HasPermission p "*" resource verb = true ↔
         ∃ ws, Resources p !! "*" = Some ws ∧ (verb ∈ ws ∨ "*" ∈ ws).
Proof.
  intros Hrun Hall. eexists. split; [by apply (run_answered k8s username w) |].
  assert (Hnone : APIGroups (fold_left process_rule (fetched_rules (calls st'))
                               no_permissions) !! "*" = None).
  { rewrite process_rules_groups. apply group_entry_wildcard. }
  split; [done |]. intros resource verb.
  rewrite HasPermission_granted. split; [| by left].
  intros [Hw | (verbs & allowed & _ & _ & Hl & _)]; [done |].
  change (normalize "*") with "*" in Hl. congruence.
Qed.

Lemma GetUserPermissions_no_wildcard_group_witness :
  ∃ p, (GetUserPermissions wildcard_group "alice" start).1 = Ok p ∧
       APIGroups p !! "*" = None ∧
       ∀ resource verb,
         HasPermission p "*" resource verb = true ↔
         ∃ ws, Resources p !! "*" = Some ws ∧ (verb ∈ ws ∨ "*" ∈ ws).
Proof.
  apply (GetUserPermissions_no_wildcard_group wildcard_group "alice" tt
           (GetUserPermissions wildcard_group "alice" start).1
           (GetUserPermissions wildcard_group "alice" start).2).
  - reflexivity.
  - vm_compute. repeat constructor.
Defined.

(** *** The entries of [Resources] *)

Lemma process_rules_named rules p r :
  is_Some (Resources (fold_left process_rule rules p) !! r) ↔
  is_Some (Resources p !! r) ∨
  ∃ rule, rule ∈ rules ∧ r ∈ rbacv1.Resources rule.
Proof.
  revert p. induction rules as [| rule rules IH]; intros p; simpl.
  - split; [by left |]. intros [H | (rule & Hin & _)]; [done |].
    by apply elem_of_nil in Hin.
  - rewrite IH, process_rule_lookup.
    destruct (decide (r ∈ rbacv1.Resources rule)) as [Hin | Hin].
    + split; [| by left]. intros _. right. exists rule. split; [by left | done].
    + split.
      * intros [H | (rule' & Hr & Hn)]; [by left |].
        right. exists rule'. split; [by right | done].
      * intros [H | (rule' & Hr & Hn)]; [by left |].
        apply elem_of_cons in Hr as [-> | Hr]; [done |].
        right. by exists rule'.
Qed.

(** X9. When every call of a run is answered, a resource has an entry in
    [Resources] exactly when some processed rule names it: a resource that
    no rule names has no entry. *)
Theorem GetUserPermissions_resources_named {W : Type} (k8s : Interface W)
    (username : string) (w : W)
    (res : result UserPermissions) (st' : State W) (resource : string) :
  GetUserPermissions k8s username {| authority := w; calls := [] |}
    = (res, st') →
  Forall succeeded (calls st') →
  ∃ p, res = Ok p ∧
       (is_Some (Resources p !! resource) ↔
        ∃ rule, rule ∈ fetched_rules (calls st') ∧
                resource ∈ rbacv1.Resources rule).
Proof.
  intros Hrun Hall. eexists. split; [by apply (run_answered k8s username w) |].
  rewrite process_rules_named. simpl. rewrite lookup_empty. split.
  - intros [H | H]; [by apply is_Some_None in H | done].
  - by right.
Qed.

Lemma GetUserPermissions_resources_named_witness :
  ∃ p, (GetUserPermissions two_roles "alice" start).1 = Ok p ∧
       (is_Some (Resources p !! "secrets") ↔
        ∃ rule, rule ∈ fetched_rules
                         (calls (GetUserPermissions two_roles "alice" start).2) ∧
                "secrets" ∈ rbacv1.Resources rule).
Proof.
  apply (GetUserPermissions_resources_named two_roles "alice" tt
           (GetUserPermissions two_roles "alice" start).1
           (GetUserPermissions two_roles "alice" start).2 "secrets").
  - reflexivity.
  - vm_compute. repeat constructor.
Defined.

(** *** The roles that are fetched *)

Lemma fetched_names_app cs1 cs2 :
  fetched_names (cs1 ++ cs2) = fetched_names cs1 ++ fetched_names cs2.
Proof. apply flat_map_app. Qed.

Lemma for_range_fetches {W B : Type}
    (body : UserPermissions → B → M (State W) UserPermissions)
    (names : B → list string) :
  fetches body names →
  ∀ l, fetches (fun p (_ : unit) => for_range body l p)
               (fun _ => flat_map names l).
Proof.
  intros Hbody l. induction l as [| b l IH]; intros p [] st; simpl.
  - exists []. by rewrite app_nil_r.
  - unfold bind. destruct (Hbody p b st) as (cs1 & Hcs1 & Hlen1 & Hn1).
    destruct (body p b st) as [[p1 | e |] st1] eqn:Hrun; simpl in *.
    + destruct (IH p1 tt st1) as (cs2 & Hcs2 & Hlen2 & Hn2).
      exists (cs1 ++ cs2). rewrite Hcs2, Hcs1, app_assoc. split; [done |].
      rewrite fetched_names_app, !length_app, Hlen1, Hlen2, Hn1.
      split; [done |].
      destruct (for_range body l p1 st1).1; [by rewrite Hn2 | |];
        by apply prefix_app.
    + exists cs1. split; [done |]. split; [done |]. by apply prefix_app_r.
    + exists cs1. split; [done |]. split; [done |]. by apply prefix_app_r.
Qed.

Lemma process_subject_fetches {W : Type} (k8s : Interface W) username crb :
  fetches (process_subject k8s username crb) (subject_roles username crb).
Proof.
  intros p subject st. unfold process_subject, subject_roles.
  destruct (_ && _).
  - unfold bind, get_role.
    destruct (GetClusterRole k8s _ (authority st)) as [[err | cr] w]; simpl;
      by eexists.
  - exists []. by rewrite app_nil_r.
Qed.

(** X10. After an answered listing the resolver fetches roles and nothing
    else: the referenced role of each binding once for every subject of the
    binding that has kind "User" and the principal's name, in the order of
    the listing (a role is fetched again for every further subject or binding
    that leads to it).  A run that ends in an error has fetched the first of
    these only. *)
Theorem GetUserPermissions_fetch_order {W : Type} (k8s : Interface W)
    (username : string) (w w1 : W) (crbs : rbacv1.ClusterRoleBindingList)
    (res : result UserPermissions) (st' : State W) :
  ListClusterRoleBindings k8s w = (inr crbs, w1) →
  GetUserPermissions k8s username {| authority := w; calls := [] |}
    = (res, st') →
  ∃ cs, calls st' = CallList (inr crbs) :: cs ∧
        length (fetched_names cs) = length cs ∧
        match res with
        | Ok _ => fetched_names cs = matching_roles username (rbacv1.Items crbs)
        | _ => fetched_names cs
                 `prefix_of` matching_roles username (rbacv1.Items crbs)
        end.
Proof.
  intros Hlist Hrun. revert Hrun.
  unfold GetUserPermissions, bind, list_bindings. simpl. rewrite Hlist.
  assert (Houter : fetches (fun p crb =>
            for_range (process_subject k8s username crb)
                      (rbacv1.Subjects crb) p)
            (fun crb => flat_map (subject_roles username crb)
                                 (rbacv1.Subjects crb))).
  { intros p crb st0.
    apply (for_range_fetches _ _ (process_subject_fetches k8s username crb)
             (rbacv1.Subjects crb) p tt st0). }
  pose proof (for_range_fetches _ _ Houter (rbacv1.Items crbs)
                {| Resources := ∅; APIGroups := ∅ |} tt
                {| authority := w1; calls := [CallList (inr crbs)] |})
    as Hfor.
  simpl in Hfor. intros Hrun. rewrite Hrun in Hfor.
  destruct Hfor as (cs & Hcs & Hlen & Hn). by exists cs.
Qed.

Lemma GetUserPermissions_fetch_order_witness :
  ∃ cs, calls (GetUserPermissions twice_bound "alice" start).2 =
          CallList (ListClusterRoleBindings twice_bound tt).1 :: cs ∧
        fetched_names cs = ["reader"; "reader"].
Proof.
  destruct (GetUserPermissions_fetch_order twice_bound "alice" tt tt
              {| rbacv1.Items :=
                   [ {| rbacv1.Subjects :=
                          [ {| rbacv1.Kind := "User"; rbacv1.Name := "alice" |};
                            {| rbacv1.Kind := "User"; rbacv1.Name := "alice" |} ];
                        rbacv1.RoleRef_ := {| rbacv1.RoleRefName := "reader" |} |} ] |}
              (GetUserPermissions twice_bound "alice" start).1
              (GetUserPermissions twice_bound "alice" start).2
              eq_refl eq_refl)
    as (cs & Hcs & _ & Hn).
  exists cs. split; [exact Hcs | exact Hn].
Defined.

(** *** From the resolver to the evaluator *)

(** X11. When every call of a run is answered and the last processed rule
    that names the resource "*" lists the verb or "*", the resolved snapshot
    grants the verb on every resource of every API group. *)
Theorem resolved_wildcard_rule_grants_all {W : Type} (k8s : Interface W)
    (username : string) (w : W)
    (res : result UserPermissions) (st' : State W)
    (l1 l2 : list rbacv1.PolicyRule) (rule : rbacv1.PolicyRule)
    (verb : string) :
  GetUserPermissions k8s username {| authority := w; calls := [] |}
    = (res, st') →
  Forall succeeded (calls st') →
  fetched_rules (calls st') = l1 ++ rule :: l2 →
  "*" ∈ rbacv1.Resources rule →
  (∀ rule', rule' ∈ l2 → "*" ∉ rbacv1.Resources rule') →
  verb ∈ rbacv1.Verbs rule ∨ "*" ∈ rbacv1.Verbs rule →
  ∃ p, res = Ok p ∧
       ∀ apiGroup resource, HasPermission p apiGroup resource verb = true.
Proof.
  intros Hrun Hall Hrules Hin Hlast Hverb.
  eexists. split; [by apply (run_answered k8s username w) |].
  intros apiGroup resource. apply HasPermission_granted. left.
  exists (rbacv1.Verbs rule). split; [| done].
  rewrite Hrules. by apply process_rules_last.
Qed.

Lemma resolved_wildcard_rule_grants_all_witness :
  ∃ p, (GetUserPermissions admin_then_reader "alice" start).1 = Ok p ∧
       ∀ apiGroup resource, HasPermission p apiGroup resource "delete" = true.
Proof.
  apply (resolved_wildcard_rule_grants_all admin_then_reader "alice" tt
           (GetUserPermissions admin_then_reader "alice" start).1
           (GetUserPermissions admin_then_reader "alice" start).2
           []
           [ {| rbacv1.Verbs := ["get"]; rbacv1.APIGroups := [""];
                rbacv1.Resources := ["pods"] |} ]
           {| rbacv1.Verbs := ["*"]; rbacv1.APIGroups := ["*"];
              rbacv1.Resources := ["*"] |}
           "delete").
  - reflexivity.
  - vm_compute. repeat constructor.
  - reflexivity.
  - apply list_elem_of_here.
  - intros rule' ->%list_elem_of_singleton. simpl.
    intros H%list_elem_of_singleton. discriminate.
  - right. apply list_elem_of_here.
Defined.

Lemma filed_under_elem k rule r :
  r ∈ rbacv1.Resources rule →
  (∃ g, g ∈ rbacv1.APIGroups rule ∧ group_key g = k) →
  names_group k rule = true ∧ r ∈ filed_under k rule.
Proof.
  intros Hr (g & Hg & Hk). apply list_elem_of_In in Hg. split.
  - unfold names_group. apply existsb_exists. exists g.
    split; [done | by apply String.eqb_eq].
  - unfold filed_under. apply list_elem_of_In, in_flat_map. exists g.
    split; [done |]. apply String.eqb_eq in Hk. rewrite Hk.
    by apply list_elem_of_In.
Qed.

Lemma group_entry_elem k rules rule r :
  rule ∈ rules →
  r ∈ rbacv1.Resources rule →
  (∃ g, g ∈ rbacv1.APIGroups rule ∧ group_key g = k) →
  ∃ allowed, group_entry k rules = Some allowed ∧ r ∈ allowed.
Proof.
  intros Hrule Hr Hg.
  destruct (filed_under_elem k rule r Hr Hg) as [Hn Hf].
  apply list_elem_of_In in Hrule. unfold group_entry.
  assert (Hex : existsb (names_group k) rules = true).
  { apply existsb_exists. by exists rule. }
  rewrite Hex. eexists. split; [done |].
  apply list_elem_of_In, in_flat_map. exists rule.
  split; [done | by apply list_elem_of_In].
Qed.

(** X12. When every call of a run is answered, and the last processed rule
    that names a resource lists the verb or "*" and lists an API group other
    than "*" and "core", the resolved snapshot grants the verb on the
    resource in that group; for the group "" it does so for the request
    group "core" as well. *)
Theorem resolved_group_rule_grants {W : Type} (k8s : Interface W)
    (username : string) (w : W)
    (res : result UserPermissions) (st' : State W)
    (l1 l2 : list rbacv1.PolicyRule) (rule : rbacv1.PolicyRule)
    (apiGroup resource verb : string) :
  GetUserPermissions k8s username {| authority := w; calls := [] |}
    = (res, st') →
  Forall succeeded (calls st') →
  fetched_rules (calls st') = l1 ++ rule :: l2 →
  resource ∈ rbacv1.Resources rule →
  (∀ rule', rule' ∈ l2 → resource ∉ rbacv1.Resources rule') →
  verb ∈ rbacv1.Verbs rule ∨ "*" ∈ rbacv1.Verbs rule →
  apiGroup ∈ rbacv1.APIGroups rule →
  apiGroup ≠ "*" →
  apiGroup ≠ "core" →
  ∃ p, res = Ok p ∧
       HasPermission p apiGroup resource verb = true ∧
       (apiGroup = "" → HasPermission p "core" resource verb = true).
Proof.
  intros Hrun Hall Hrules Hin Hlast Hverb Hgroup Hnw Hnc.
  eexists. split; [by apply (run_answered k8s username w) |].
  assert (Hkey : group_key apiGroup = apiGroup).
  { unfold group_key. apply String.eqb_neq in Hnw. by rewrite Hnw. }
  assert (Hnorm : normalize apiGroup = apiGroup).
  { unfold normalize. apply String.eqb_neq in Hnc. by rewrite Hnc. }
  destruct (group_entry_elem apiGroup (fetched_rules (calls st')) rule resource)
    as (allowed & Hentry & Hallowed); [| done | by exists apiGroup |].
  { rewrite Hrules. apply elem_of_app. right. by left. }
  assert (Hgrant : specific_grant
            (fold_left process_rule (fetched_rules (calls st')) no_permissions)
            apiGroup resource verb).
  { exists (rbacv1.Verbs rule), allowed. split.
    - rewrite Hrules. by apply process_rules_last.
    - split; [done |]. split; [| by left].
      by rewrite Hnorm, process_rules_groups. }
  split.
  - apply HasPermission_granted. by right.
  - intros ->. apply HasPermission_granted. by right.
Qed.

Lemma resolved_group_rule_grants_witness :
  ∃ p, (GetUserPermissions two_roles "alice" start).1 = Ok p ∧
       HasPermission p "" "pods" "list" = true ∧
       ("" = "" → HasPermission p "core" "pods" "list" = true).
Proof.
  apply (resolved_group_rule_grants two_roles "alice" tt
           (GetUserPermissions two_roles "alice" start).1
           (GetUserPermissions two_roles "alice" start).2
           [ {| rbacv1.Verbs := ["get"]; rbacv1.APIGroups := [""];
                rbacv1.Resources := ["pods"] |} ]
           []
           {| rbacv1.Verbs := ["list"]; rbacv1.APIGroups := [""];
              rbacv1.Resources := ["pods"] |}
           "" "pods" "list").
  - reflexivity.
  - vm_compute. repeat constructor.
  - reflexivity.
  - apply list_elem_of_here.
  - intros rule' H. by apply elem_of_nil in H.
  - left. apply list_elem_of_here.
  - apply list_elem_of_here.
  - discriminate.
  - discriminate.
Defined.

(** *** A role that is processed twice in a row *)

Lemma process_rules_groups_from rules p k :
  APIGroups (fold_left process_rule rules p) !! k =
  if existsb (names_group k) rules
  then Some (default [] (APIGroups p !! k) ++ flat_map (filed_under k) rules)
  else APIGroups p !! k.
Proof.
  apply (fold_appends process_rule (names_group k) (filed_under k) k
           (filed_under_nil k) (fun q rule => process_rule_groups q rule k)).
Qed.

(** Once some rule names the resource, the entry no longer depends on the
    snapshot the fold starts from. *)
Lemma process_rules_start_forgotten rules p q r :
  (∃ rule, rule ∈ rules ∧ r ∈ rbacv1.Resources rule) →
  Resources (fold_left process_rule rules p) !! r =
  Resources (fold_left process_rule rules q) !! r.
Proof.
  revert p q. induction rules as [| rule rules IH]; intros p q Hex; simpl.
  - destruct Hex as (rule & Hin & _). by apply elem_of_nil in Hin.
  - destruct (decide (Exists (fun rule' => r ∈ rbacv1.Resources rule') rules))
      as [Hlater | Hlater].
    + apply IH. apply Exists_exists in Hlater. done.
    + assert (Hno : ∀ rule', rule' ∈ rules → r ∉ rbacv1.Resources rule').
      { intros rule' Hin Hr. apply Hlater, Exists_exists. by exists rule'. }
      rewrite !process_rules_untouched by done.
      rewrite !process_rule_lookup.
      destruct Hex as (rule' & Hin & Hr).
      apply elem_of_cons in Hin as [-> | Hin]; [| by destruct (Hno rule' Hin)].
      by rewrite !decide_True.
Qed.

Lemma process_rules_twice_Resources rules p r :
  Resources (fold_left process_rule rules (fold_left process_rule rules p)) !! r
  = Resources (fold_left process_rule rules p) !! r.
Proof.
  destruct (decide (Exists (fun rule => r ∈ rbacv1.Resources rule) rules))
    as [Hex | Hno].
  - apply process_rules_start_forgotten. by apply Exists_exists in Hex.
  - apply process_rules_untouched. intros rule Hin Hr.
    apply Hno, Exists_exists. by exists rule.
Qed.

(** X20. Processing the rules of a role a second time right after the
    first (as happens when a binding lists the user twice) changes no answer
    of [HasPermission], although the resource lists in [APIGroups] are
    appended once more. *)
Theorem process_rules_twice_same_answers (rules : list rbacv1.PolicyRule)
    (p : UserPermissions) (apiGroup resource verb : string) :
  HasPermission (fold_left process_rule (rules ++ rules) p)
                apiGroup resource verb
  = HasPermission (fold_left process_rule rules p) apiGroup resource verb.
Proof.
  rewrite fold_left_app. apply eq_true_iff_eq.
  rewrite !HasPermission_granted. unfold wildcard_grant, specific_grant.
  rewrite !process_rules_twice_Resources.
  set (once := fold_left process_rule rules p).
  assert (Hgroups : ∀ x,
    (∃ allowed, APIGroups (fold_left process_rule rules once)
                  !! normalize apiGroup = Some allowed ∧
                contains_or_wildcard x allowed) ↔
    (∃ allowed, APIGroups once !! normalize apiGroup = Some allowed ∧
                contains_or_wildcard x allowed)).
  { intros x. rewrite (process_rules_groups_from rules once).
    subst once. rewrite (process_rules_groups_from rules p).
    destruct (existsb (names_group (normalize apiGroup)) rules); [| done].
    simpl. unfold contains_or_wildcard. split.
    - intros (allowed & [= <-] & Hc). eexists. split; [done |].
      rewrite !elem_of_app in Hc. rewrite !elem_of_app. tauto.
    - intros (allowed & [= <-] & Hc). eexists. split; [done |].
      rewrite !elem_of_app in Hc. rewrite !elem_of_app. tauto. }
  split.
  - intros [Hw | (verbs & allowed & Hr & Hc & Hl & Ha)]; [by left |].
    right. destruct (proj1 (Hgroups resource)) as (allowed' & Hl' & Ha');
      [by exists allowed |]. by exists verbs, allowed'.
  - intros [Hw | (verbs & allowed & Hr & Hc & Hl & Ha)]; [by left |].
    right. destruct (proj2 (Hgroups resource)) as (allowed' & Hl' & Ha');
      [by exists allowed |]. by exists verbs, allowed'.
Qed.

End ResolverFacts.

(** * Further properties of the cache and the live checker *)

Module CacheFacts.
Import Business BusinessSpec BusinessFacts.

(** Every part of what the live check does. *)
Lemma live_check_full {W : Type} (userClient : ClientInterface W)
    (st : State W) (username resourceType verb : string) :
  live_check userClient username resourceType verb st =
  let out_w := GetSelfSubjectAccessReview userClient "" "" resourceType [verb]
                                          (authority st) in
  (live_answer out_w.1,
   {| userPermissionsCache := userPermissionsCache st;
      now := now st;
      authority := out_w.2;
      calls := calls st ++ [CallSelfReview "" "" resourceType [verb] out_w.1];
      logged := logged st ++ live_log username resourceType out_w.1 |}).
Proof.
  unfold live_check, bind, self_review, log_Errorf.
  destruct (GetSelfSubjectAccessReview userClient "" "" resourceType [verb]
              (authority st)) as [[err | [| first rest]] w]; simpl;
    by rewrite ?app_nil_r.
Qed.

Lemma live_answer_no_panic out : live_answer out ≠ Panic.
Proof. by destruct out as [err | [| first rest]]. Qed.

(** X13. [CheckUserPermissions] panics exactly when the cache holds the
    nil pointer under the principal; in particular it panics right after
    [CacheUserPermissions] has stored nil for the principal. *)
Theorem CheckUserPermissions_panics_iff {W : Type}
    (userClient : ClientInterface W) (st : State W)
    (username resourceType verb : string) :
  ((CheckUserPermissions userClient username resourceType verb st).1 = Panic ↔
   userPermissionsCache st !! username = Some None) ∧
  (CheckUserPermissions userClient username resourceType verb
     (CacheUserPermissions username None st).2).1 = Panic.
Proof.
  split.
  - unfold CheckUserPermissions, bind at 1, get.
    destruct (userPermissionsCache st !! username) as [[permissions |] |].
    + destruct (_ <? _)%Z.
      * rewrite live_check_full. simpl. split; [| done].
        intros H. by apply live_answer_no_panic in H.
      * done.
    + done.
    + rewrite live_check_full. simpl. split; [| done].
      intros H. by apply live_answer_no_panic in H.
  - unfold CheckUserPermissions, CacheUserPermissions, bind, get, set_cache.
    simpl. by rewrite lookup_insert_eq.
Qed.

(** X14. Storing or clearing one principal leaves every other principal's
    entry as it was. *)
Theorem cache_other_principal {W : Type} (st : State W)
    (username other : string) (permissions : option ResourcePermissions) :
  username ≠ other →
  (GetUserPermissions other (CacheUserPermissions username permissions st).2).1
    = (GetUserPermissions other st).1 ∧
  (GetUserPermissions other (ClearUserPermissions username st).2).1
    = (GetUserPermissions other st).1.
Proof.
  intros Hne.
  unfold GetUserPermissions, CacheUserPermissions, ClearUserPermissions,
    bind, get, set_cache, ret. simpl.
  by rewrite lookup_insert_ne, lookup_delete_ne.
Qed.

Lemma cache_other_principal_witness :
  (GetUserPermissions "alice"
     (CacheUserPermissions "bob" None fresh_state).2).1 = Ok (Some alice_entry) ∧
  (GetUserPermissions "alice" (ClearUserPermissions "bob" fresh_state).2).1
    = Ok (Some alice_entry).
Proof.
  apply (cache_other_principal fresh_state "bob" "alice" None). discriminate.
Defined.

(** X15. Storing replaces: a second [CacheUserPermissions] for the same
    principal leaves the state that it alone would give.  Clearing twice is
    clearing once, and clearing after storing is clearing; these operations
    change nothing but the cache, and [GetUserPermissions] changes nothing. *)
Theorem cache_operations_compose {W : Type} (st : State W) (username : string)
    (first second : option ResourcePermissions) :
  (CacheUserPermissions username second
     (CacheUserPermissions username first st).2).2
    = (CacheUserPermissions username second st).2 ∧
  (ClearUserPermissions username (ClearUserPermissions username st).2).2
    = (ClearUserPermissions username st).2 ∧
  (ClearUserPermissions username (CacheUserPermissions username first st).2).2
    = (ClearUserPermissions username st).2 ∧
  (GetUserPermissions username st).2 = st ∧
  (CacheUserPermissions username first st).2 =
    {| userPermissionsCache := <[ username := first ]> (userPermissionsCache st);
       now := now st; authority := authority st;
       calls := calls st; logged := logged st |} ∧
  (ClearUserPermissions username st).2 =
    {| userPermissionsCache := delete username (userPermissionsCache st);
       now := now st; authority := authority st;
       calls := calls st; logged := logged st |}.
Proof.
  unfold CacheUserPermissions, ClearUserPermissions, GetUserPermissions,
    bind, get, set_cache, ret. simpl.
  by rewrite insert_insert_eq, delete_delete_eq, delete_insert_eq.
Qed.

(** X16. On the live path the log grows by one line, naming the principal,
    the resource type and the failure, when the authority call fails, and is
    left alone when the call is answered; the clock is not changed and the
    authority is left in the state the call put it in. *)
Theorem CheckUserPermissions_live_log {W : Type}
    (userClient : ClientInterface W) (st : State W)
    (username resourceType verb : string)
    (out : error + list SelfSubjectAccessReview) (w : W) :
  absent_or_stale st username →
  GetSelfSubjectAccessReview userClient "" "" resourceType [verb] (authority st)
    = (out, w) →
  let run := CheckUserPermissions userClient username resourceType verb st in
  logged run.2 =
    logged st ++
    match out with
    | inl err =>
        ["Error checking permissions for user " +:+ username
         +:+ " on resource " +:+ resourceType +:+ ": " +:+ Error err]
    | inr _ => []
    end ∧
  authority run.2 = w ∧
  now run.2 = now st.
Proof.
  intros Hstale Hcall run.
  assert (Hrun : run = live_check userClient username resourceType verb st).
  { subst run. unfold CheckUserPermissions, bind at 1, get.
    destruct Hstale as [-> | (permissions & -> & Hold)]; [done |].
    apply stale_iff in Hold. unfold Since. by rewrite Hold. }
  rewrite Hrun, live_check_full, Hcall. done.
Qed.

Lemma CheckUserPermissions_live_log_witness :
  let run := CheckUserPermissions unreachable "alice" "pods" "get" stale_state in
  logged run.2 =
    ["Error checking permissions for user alice on resource pods: connection refused"] ∧
  authority run.2 = tt ∧
  now run.2 = now stale_state.
Proof.
  apply (CheckUserPermissions_live_log unreachable stale_state
           "alice" "pods" "get" (inl (External "connection refused")) tt).
  - right. exists alice_entry. split; [reflexivity |].
    vm_compute. reflexivity.
  - reflexivity.
Defined.

(** X17. After [ClearUserPermissions] for a principal the next
    [CheckUserPermissions] for it asks the authority, whatever the cache held
    before: it makes the one self-review call and returns what the live check
    returns for the answer. *)
Theorem CheckUserPermissions_after_clear {W : Type}
    (userClient : ClientInterface W) (st : State W)
    (username resourceType verb : string)
    (out : error + list SelfSubjectAccessReview) (w : W) :
  GetSelfSubjectAccessReview userClient "" "" resourceType [verb] (authority st)
    = (out, w) →
  let run := CheckUserPermissions userClient username resourceType verb
               (ClearUserPermissions username st).2 in
  run.1 = match out with
          | inl err => Err (Errorf "error checking permissions: " err)
          | inr [] => Ok false
          | inr (first :: _) => Ok (Allowed (Status first))
          end ∧
  calls run.2 = calls st ++ [CallSelfReview "" "" resourceType [verb] out].
Proof.
  intros Hcall run. subst run.
  unfold CheckUserPermissions, bind at 1, get.
  unfold ClearUserPermissions, bind, get, set_cache. simpl.
  rewrite lookup_delete_eq, live_check_full. simpl. by rewrite Hcall.
Qed.

Lemma CheckUserPermissions_after_clear_witness :
  let run := CheckUserPermissions unreachable "alice" "pods" "get"
               (ClearUserPermissions "alice" fresh_state).2 in
  run.1 = Err (Errorf "error checking permissions: "
                      (External "connection refused")) ∧
  calls run.2 =
    [CallSelfReview "" "" "pods" ["get"] (inl (External "connection refused"))].
Proof.
  apply (CheckUserPermissions_after_clear unreachable fresh_state
           "alice" "pods" "get" (inl (External "connection refused")) tt).
  reflexivity.
Defined.

(** X18. After [CacheUserPermissions] has stored an entry that is not older
    than five minutes, [CheckUserPermissions] for the principal answers from
    that entry by exact match and makes no call, whatever the cache held
    before and whatever the authority would say. *)
Theorem CheckUserPermissions_after_cache {W : Type}
    (userClient : ClientInterface W) (st : State W)
    (username resourceType verb : string) (permissions : ResourcePermissions) :
  (now st - LastChecked permissions ≤ 5 * Minute)%Z →
  CheckUserPermissions userClient username resourceType verb
    (CacheUserPermissions username (Some permissions) st).2
  = (Ok (cached_check permissions resourceType verb),
     (CacheUserPermissions username (Some permissions) st).2).
Proof.
  intros Hfresh.
  unfold CheckUserPermissions, bind at 1, get.
  unfold CacheUserPermissions, bind, get, set_cache. simpl.
  rewrite lookup_insert_eq.
  assert (Hcmp : (5 * Minute <? Sub (now st) (LastChecked permissions))%Z
                 = false).
  { apply not_true_is_false. rewrite stale_iff. lia. }
  unfold Since. simpl. by rewrite Hcmp.
Qed.

Lemma CheckUserPermissions_after_cache_witness :
  CheckUserPermissions permissive "bob" "pods" "list"
    (CacheUserPermissions "bob" (Some alice_entry) fresh_state).2
  = (Ok false, (CacheUserPermissions "bob" (Some alice_entry) fresh_state).2).
Proof.
  apply (CheckUserPermissions_after_cache permissive fresh_state
           "bob" "pods" "list" alice_entry).
  vm_compute. discriminate.
Defined.

Lemma CheckUserPermissions_depends {W : Type} (userClient : ClientInterface W)
    (st1 st2 : State W) (username resourceType verb : string) :
  userPermissionsCache st1 !! username = userPermissionsCache st2 !! username →
  now st1 = now st2 →
  authority st1 = authority st2 →
  (CheckUserPermissions userClient username resourceType verb st1).1
  = (CheckUserPermissions userClient username resourceType verb st2).1.
Proof.
  intros Hentry Hnow Hauth. unfold CheckUserPermissions, bind, get.
  rewrite Hentry.
  destruct (userPermissionsCache st2 !! username) as [[permissions |] |];
    [| done |].
  - unfold Since. rewrite Hnow. destruct (_ <? _)%Z; [| done].
    rewrite !live_check_full. simpl. by rewrite Hauth.
  - rewrite !live_check_full. simpl. by rewrite Hauth.
Qed.

(** X19. What [CheckUserPermissions] returns for a principal does not
    depend on the entries of other principals: storing or clearing another
    principal's entry beforehand changes no answer. *)
Theorem CheckUserPermissions_other_principal {W : Type}
    (userClient : ClientInterface W) (st : State W)
    (username other resourceType verb : string)
    (permissions : option ResourcePermissions) :
  username ≠ other →
  (CheckUserPermissions userClient other resourceType verb
     (CacheUserPermissions username permissions st).2).1
  = (CheckUserPermissions userClient other resourceType verb st).1 ∧
  (CheckUserPermissions userClient other resourceType verb
     (ClearUserPermissions username st).2).1
  = (CheckUserPermissions userClient other resourceType verb st).1.
Proof.
  intros Hne. split; apply CheckUserPermissions_depends; try done.
  - unfold CacheUserPermissions, bind, get, set_cache. simpl.
    by apply lookup_insert_ne.
  - unfold ClearUserPermissions, bind, get, set_cache. simpl.
    by apply lookup_delete_ne.
Qed.

Lemma CheckUserPermissions_other_principal_witness :
  (CheckUserPermissions unreachable "alice" "pods" "get"
     (CacheUserPermissions "bob" None fresh_state).2).1 = Ok true ∧
  (CheckUserPermissions unreachable "alice" "pods" "get"
     (ClearUserPermissions "bob" fresh_state).2).1 = Ok true.
Proof.
  apply (CheckUserPermissions_other_principal unreachable fresh_state
           "bob" "alice" "pods" "get" None).
  discriminate.
Defined.

End CacheFacts.
